(** * cloud-native-streaming: the chat client's envelope codec, inbound
      processor, outbound formatter and read/write loops

    A shallow embedding of [src/app/reader.py], [src/app/writer.py] and
    [src/app/chatter.py].  Python values are modelled as follows:

    - [str] is a list of Unicode code points ([Z]);
    - [bytes] is a list of octets ([Z] in [0, 256));
    - a raising computation returns [Err e], with [e] the Python exception;
    - the broker, the joke provider and the console are explicit inputs. *)

From Stdlib Require Import ZArith List Bool Lia String Ascii.
Import ListNotations.
Open Scope Z_scope.
Set Warnings "-register-all".

(** ** Python exceptions and raising computations *)

Inductive exn : Type :=
| UnicodeDecodeError
| UnicodeEncodeError
| JSONDecodeError
| RecursionError
| KeyError
| TypeError
| IndexError
| ValidationError
| NameError (name : string)
| RequestException
| BrokerError.

Inductive result (A : Type) : Type :=
| Ok (a : A)
| Err (e : exn).
Arguments Ok {A} a.
Arguments Err {A} e.

Definition bind {A B : Type} (m : result A) (k : A -> result B) : result B :=
  match m with
  | Ok a => k a
  | Err e => Err e
  end.

Notation "x <- m ;; k" := (bind m (fun x => k))
  (at level 61, m at next level, right associativity).
Notation "' pat <- m ;; k" := (bind m (fun z => match z with pat => k end))
  (at level 61, pat pattern, m at next level, right associativity).

Fixpoint mapM {A B : Type} (f : A -> result B) (l : list A) : result (list B) :=
  match l with
  | [] => Ok []
  | a :: l' => b <- f a ;; bs <- mapM f l' ;; Ok (b :: bs)
  end.

(** ** Python strings and bytes *)

Module Py.

Definition str : Type := list Z.
Definition bytes : Type := list Z.

(** A string literal of the source, as code points. *)
Definition lit (s : string) : str :=
  List.map (fun a => Z.of_N (N_of_ascii a)) (list_ascii_of_string s).

(** The same, with every apostrophe standing for a double quote. *)
Definition lit_q (s : string) : str :=
  List.map (fun c => if c =? 0x27 then 0x22 else c) (lit s).

Fixpoint str_eqb (a b : str) : bool :=
  match a, b with
  | [], [] => true
  | x :: a', y :: b' => (x =? y) && str_eqb a' b'
  | _, _ => false
  end.

(** Unicode scalar values: what a [str] read from a UTF-8 source holds. *)
Definition is_scalar (c : Z) : bool :=
  (0 <=? c) && (c <=? 0x10FFFF) && negb ((0xD800 <=? c) && (c <=? 0xDFFF)).

(** *** [bytes.decode("utf-8")] and [str.encode("utf-8")] (strict) *)

Definition is_cont (b : Z) : bool := (0x80 <=? b) && (b <=? 0xBF).

(** One code point off the front of a byte string. *)
Definition utf8_next (bs : bytes) : result (Z * bytes) :=
  match bs with
  | [] => Err UnicodeDecodeError
  | b0 :: r0 =>
    if (0 <=? b0) && (b0 <? 0x80) then Ok (b0, r0)
    else if (0xC2 <=? b0) && (b0 <=? 0xDF) then
      match r0 with
      | b1 :: r1 =>
        if is_cont b1 then Ok ((b0 - 0xC0) * 64 + (b1 - 0x80), r1)
        else Err UnicodeDecodeError
      | _ => Err UnicodeDecodeError
      end
    else if (0xE0 <=? b0) && (b0 <=? 0xEF) then
      match r0 with
      | b1 :: b2 :: r2 =>
        let c := (b0 - 0xE0) * 4096 + (b1 - 0x80) * 64 + (b2 - 0x80) in
        if is_cont b1 && is_cont b2 && (0x800 <=? c)
           && negb ((0xD800 <=? c) && (c <=? 0xDFFF))
        then Ok (c, r2) else Err UnicodeDecodeError
      | _ => Err UnicodeDecodeError
      end
    else if (0xF0 <=? b0) && (b0 <=? 0xF4) then
      match r0 with
      | b1 :: b2 :: b3 :: r3 =>
        let c := (b0 - 0xF0) * 262144 + (b1 - 0x80) * 4096
                 + (b2 - 0x80) * 64 + (b3 - 0x80) in
        if is_cont b1 && is_cont b2 && is_cont b3
           && (0x10000 <=? c) && (c <=? 0x10FFFF)
        then Ok (c, r3) else Err UnicodeDecodeError
      | _ => Err UnicodeDecodeError
      end
    else Err UnicodeDecodeError
  end.

Fixpoint utf8_decode_fuel (fuel : nat) (bs : bytes) : result str :=
  match bs with
  | [] => Ok []
  | _ :: _ =>
    match fuel with
    | O => Err UnicodeDecodeError
    | S fuel' =>
      '(c, rest) <- utf8_next bs ;;
      cs <- utf8_decode_fuel fuel' rest ;;
      Ok (c :: cs)
    end
  end.

Definition utf8_decode (bs : bytes) : result str :=
  utf8_decode_fuel (List.length bs) bs.

Definition utf8_encode_char (c : Z) : result bytes :=
  if negb (is_scalar c) then Err UnicodeEncodeError
  else if c <? 0x80 then Ok [c]
  else if c <? 0x800 then Ok [0xC0 + c / 64; 0x80 + c mod 64]
  else if c <? 0x10000 then
    Ok [0xE0 + c / 4096; 0x80 + (c / 64) mod 64; 0x80 + c mod 64]
  else
    Ok [0xF0 + c / 262144; 0x80 + (c / 4096) mod 64;
        0x80 + (c / 64) mod 64; 0x80 + c mod 64].

Fixpoint utf8_encode (s : str) : result bytes :=
  match s with
  | [] => Ok []
  | c :: s' =>
    bs <- utf8_encode_char c ;;
    rest <- utf8_encode s' ;;
    Ok (bs ++ rest)
  end.

(** *** [str.strip()] *)

(** [Py_UNICODE_ISSPACE]: the characters [str.strip()] removes. *)
Definition isspace (c : Z) : bool :=
  ((0x09 <=? c) && (c <=? 0x0D)) || ((0x1C <=? c) && (c <=? 0x20))
  || (c =? 0x85) || (c =? 0xA0) || (c =? 0x1680)
  || ((0x2000 <=? c) && (c <=? 0x200A))
  || (c =? 0x2028) || (c =? 0x2029) || (c =? 0x202F)
  || (c =? 0x205F) || (c =? 0x3000).

Fixpoint lstrip (s : str) : str :=
  match s with
  | [] => []
  | c :: s' => if isspace c then lstrip s' else s
  end.

Definition rstrip (s : str) : str := List.rev (lstrip (List.rev s)).

Definition strip (s : str) : str := rstrip (lstrip s).

(** *** [str.lower()] *)

Definition ascii_lower (c : Z) : Z :=
  if (0x41 <=? c) && (c <=? 0x5A) then c + 32 else c.

(** The Unicode character database the interpreter was built with, for the
    code points outside ASCII: full lower-case mapping and the two
    properties the final-sigma rule consults. *)
Record unicode_db : Type := {
  to_lower_full : Z -> list Z;
  is_cased : Z -> bool;
  is_case_ignorable : Z -> bool
}.

Section Lower.
Variable U : unicode_db.

Definition lower_char (c : Z) : list Z :=
  if (0 <=? c) && (c <? 0x80) then [ascii_lower c] else to_lower_full U c.

Fixpoint skip_ignorable (s : str) : str :=
  match s with
  | [] => []
  | c :: s' => if is_case_ignorable U c then skip_ignorable s' else s
  end.

(** [handle_capital_sigma]: U+03A3 lowers to final sigma U+03C2 when it
    follows a cased letter and is not followed by one. *)
Definition handle_capital_sigma (before_rev after : str) : Z :=
  let preceded :=
    match skip_ignorable before_rev with
    | [] => false
    | c :: _ => is_cased U c
    end in
  let followed :=
    match skip_ignorable after with
    | [] => false
    | c :: _ => is_cased U c
    end in
  if preceded && negb followed then 0x3C2 else 0x3C3.

Fixpoint do_lower (before_rev s : str) : str :=
  match s with
  | [] => []
  | c :: rest =>
    (if c =? 0x3A3 then [handle_capital_sigma before_rev rest]
     else lower_char c) ++ do_lower (c :: before_rev) rest
  end.

Definition lower (s : str) : str := do_lower [] s.
End Lower.

End Py.

(** ** The [json] module: [json.dumps] and [json.loads] *)

Module Json.
Import Py.

Inductive value : Type :=
| JNull
| JBool (b : bool)
| JInt (z : Z)
| JFloat (lexeme : str)
| JString (s : str)
| JArray (items : list value)
| JObject (d : list (str * value)).

(** A [dict] keeps insertion order; assigning an existing key overwrites
    its value in place. *)
Definition dict : Type := list (str * value).

Fixpoint dict_set (k : str) (v : value) (d : dict) : dict :=
  match d with
  | [] => [(k, v)]
  | (k', v') :: d' =>
    if str_eqb k' k then (k', v) :: d' else (k', v') :: dict_set k v d'
  end.

Fixpoint dict_get (k : str) (d : dict) : option value :=
  match d with
  | [] => None
  | (k', v') :: d' => if str_eqb k' k then Some v' else dict_get k d'
  end.

(** *** Encoding ([ensure_ascii=True], the default) *)

Definition hex_digit (d : Z) : Z := if d <? 10 then 0x30 + d else 0x57 + d.

Definition hex4 (n : Z) : str :=
  [hex_digit (n / 4096); hex_digit ((n / 256) mod 16);
   hex_digit ((n / 16) mod 16); hex_digit (n mod 16)].

(** Backslash, [u] and four lower-case hex digits. *)
Definition u_escape (n : Z) : str := 0x5C :: 0x75 :: hex4 n.

(** [ascii_escape_unichar]. *)
Definition escape_char (c : Z) : str :=
  if (0x20 <=? c) && (c <=? 0x7E) && negb (c =? 0x5C) && negb (c =? 0x22)
  then [c]
  else if c =? 0x5C then [0x5C; 0x5C]
  else if c =? 0x22 then [0x5C; 0x22]
  else if c =? 0x08 then [0x5C; 0x62]
  else if c =? 0x0C then [0x5C; 0x66]
  else if c =? 0x0A then [0x5C; 0x6E]
  else if c =? 0x0D then [0x5C; 0x72]
  else if c =? 0x09 then [0x5C; 0x74]
  else if 0x10000 <=? c then
    let v := c - 0x10000 in
    u_escape (0xD800 + v / 1024) ++ u_escape (0xDC00 + v mod 1024)
  else u_escape c.

Definition escape (s : str) : str := List.flat_map escape_char s.

(** [encode_basestring_ascii]: the quoted JSON form of a string. *)
Definition dumps_str (s : str) : str := 0x22 :: escape s ++ [0x22].

(** [json.dumps] of a dict of strings, with the default separators. *)
Fixpoint dumps_items (d : list (str * str)) : str :=
  match d with
  | [] => []
  | [(k, v)] => dumps_str k ++ lit ": " ++ dumps_str v
  | (k, v) :: d' =>
    dumps_str k ++ lit ": " ++ dumps_str v ++ lit ", " ++ dumps_items d'
  end.

Definition dumps_dict (d : list (str * str)) : str :=
  lit "{" ++ dumps_items d ++ lit "}".

(** *** Decoding *)

Definition is_ws (c : Z) : bool :=
  (c =? 0x20) || (c =? 0x09) || (c =? 0x0A) || (c =? 0x0D).

Fixpoint skip_ws (s : str) : str :=
  match s with
  | [] => []
  | c :: s' => if is_ws c then skip_ws s' else s
  end.

Definition hex_val (c : Z) : option Z :=
  if (0x30 <=? c) && (c <=? 0x39) then Some (c - 0x30)
  else if (0x61 <=? c) && (c <=? 0x66) then Some (c - 0x57)
  else if (0x41 <=? c) && (c <=? 0x46) then Some (c - 0x37)
  else None.

Definition hex4_val (a b c d : Z) : option Z :=
  match hex_val a, hex_val b, hex_val c, hex_val d with
  | Some x3, Some x2, Some x1, Some x0 =>
    Some (((x3 * 16 + x2) * 16 + x1) * 16 + x0)
  | _, _, _, _ => None
  end.

Definition is_high_surrogate (c : Z) : bool := (0xD800 <=? c) && (c <=? 0xDBFF).
Definition is_low_surrogate (c : Z) : bool := (0xDC00 <=? c) && (c <=? 0xDFFF).
Definition join_surrogates (hi lo : Z) : Z :=
  0x10000 + ((hi - 0xD800) * 1024 + (lo - 0xDC00)).

Definition push (c : Z) (k : result (str * str)) : result (str * str) :=
  '(s, rest) <- k ;; Ok (c :: s, rest).

(** [scanstring] in strict mode, entered after the opening quote: the
    decoded string and the text after the closing quote. *)
Fixpoint scanstring (s : str) : result (str * str) :=
  match s with
  | [] => Err JSONDecodeError
  | c :: r =>
    if c =? 0x22 then Ok ([], r)
    else if c =? 0x5C then
      match r with
      | [] => Err JSONDecodeError
      | e :: r1 =>
        if e =? 0x75 then
          match r1 with
          | h1 :: h2 :: h3 :: h4 :: r2 =>
            match hex4_val h1 h2 h3 h4 with
            | None => Err JSONDecodeError
            | Some u =>
              if is_high_surrogate u then
                match r2 with
                | b :: u' :: l1 :: l2 :: l3 :: l4 :: r3 =>
                  if (b =? 0x5C) && (u' =? 0x75) then
                    match hex4_val l1 l2 l3 l4 with
                    | None => Err JSONDecodeError
                    | Some lo =>
                      if is_low_surrogate lo
                      then push (join_surrogates u lo) (scanstring r3)
                      else push u (scanstring r2)
                    end
                  else push u (scanstring r2)
                | _ => push u (scanstring r2)
                end
              else push u (scanstring r2)
            end
          | _ => Err JSONDecodeError
          end
        else if e =? 0x22 then push 0x22 (scanstring r1)
        else if e =? 0x5C then push 0x5C (scanstring r1)
        else if e =? 0x2F then push 0x2F (scanstring r1)
        else if e =? 0x62 then push 0x08 (scanstring r1)
        else if e =? 0x66 then push 0x0C (scanstring r1)
        else if e =? 0x6E then push 0x0A (scanstring r1)
        else if e =? 0x72 then push 0x0D (scanstring r1)
        else if e =? 0x74 then push 0x09 (scanstring r1)
        else Err JSONDecodeError
      end
    else if c <=? 0x1F then Err JSONDecodeError
    else push c (scanstring r)
  end.

Definition is_digit (c : Z) : bool := (0x30 <=? c) && (c <=? 0x39).

Fixpoint take_digits (s : str) : str * str :=
  match s with
  | [] => ([], [])
  | c :: r =>
    if is_digit c then let (ds, rest) := take_digits r in (c :: ds, rest)
    else ([], s)
  end.

Definition digits_val (ds : str) : Z :=
  List.fold_left (fun acc d => acc * 10 + (d - 0x30)) ds 0.

(** [_match_number]: an integer is read exactly; a number with a fraction
    or an exponent becomes a float, kept here as its lexeme. *)
Definition match_number (s : str) : result (value * str) :=
  let (neg, s1) :=
    match s with
    | c :: r => if c =? 0x2D then (true, r) else (false, s)
    | [] => (false, s)
    end in
  match s1 with
  | [] => Err JSONDecodeError
  | c :: r =>
    let int_part :=
      if (0x31 <=? c) && (c <=? 0x39)
      then Some (let (ds, rest) := take_digits r in (c :: ds, rest))
      else if c =? 0x30 then Some ([c], r)
      else None in
    match int_part with
    | None => Err JSONDecodeError
    | Some (ip, s2) =>
      let (frac, s3) :=
        match s2 with
        | dot :: d :: r' =>
          if (dot =? 0x2E) && is_digit d
          then let (ds, rest) := take_digits r' in (dot :: d :: ds, rest)
          else ([], s2)
        | _ => ([], s2)
        end in
      let (exp, s4) :=
        match s3 with
        | e :: r' =>
          if (e =? 0x65) || (e =? 0x45) then
            let (sign, r'') :=
              match r' with
              | sg :: t =>
                if (sg =? 0x2D) || (sg =? 0x2B) then ([sg], t) else ([], r')
              | [] => ([], r')
              end in
            match take_digits r'' with
            | ([], _) => ([], s3)
            | (ds, rest) => (e :: sign ++ ds, rest)
            end
          else ([], s3)
        | [] => ([], s3)
        end in
      match frac, exp with
      | [], [] => Ok (JInt (if neg then - digits_val ip else digits_val ip), s4)
      | _, _ =>
        Ok (JFloat ((if neg then [0x2D] else []) ++ ip ++ frac ++ exp), s4)
      end
    end
  end.

Fixpoint strip_prefix (p s : str) : option str :=
  match p, s with
  | [], _ => Some s
  | a :: p', b :: s' => if a =? b then strip_prefix p' s' else None
  | _ :: _, [] => None
  end.

(** [scan_once] with its object and array loops.  [fuel] bounds the nesting
    and the number of members read; running out raises [RecursionError]. *)
Fixpoint scan_once (fuel : nat) (s : str) {struct fuel} : result (value * str) :=
  match fuel with
  | O => Err RecursionError
  | S fuel' =>
    match s with
    | [] => Err JSONDecodeError
    | c :: r =>
      if c =? 0x22 then
        '(k, rest) <- scanstring r ;; Ok (JString k, rest)
      else if c =? 0x7B then
        match skip_ws r with
        | [] => Err JSONDecodeError
        | c' :: r' =>
          if c' =? 0x7D then Ok (JObject [], r')
          else object_loop fuel' [] (skip_ws r)
        end
      else if c =? 0x5B then
        match skip_ws r with
        | [] => Err JSONDecodeError
        | c' :: r' =>
          if c' =? 0x5D then Ok (JArray [], r')
          else array_loop fuel' [] (skip_ws r)
        end
      else
        let constant (word : string) (v : value) :=
          match strip_prefix (lit word) s with
          | Some rest => Ok (v, rest)
          | None => match_number s
          end in
        if c =? 0x6E then constant "null"%string JNull
        else if c =? 0x74 then constant "true"%string (JBool true)
        else if c =? 0x66 then constant "false"%string (JBool false)
        else if c =? 0x4E then constant "NaN"%string (JFloat (lit "NaN"))
        else if c =? 0x49 then constant "Infinity"%string (JFloat (lit "Infinity"))
        else if c =? 0x2D then constant "-Infinity"%string (JFloat (lit "-Infinity"))
        else match_number s
    end
  end

with object_loop (fuel : nat) (acc : dict) (s : str) {struct fuel}
  : result (value * str) :=
  match fuel with
  | O => Err RecursionError
  | S fuel' =>
    match s with
    | [] => Err JSONDecodeError
    | q :: r =>
      if negb (q =? 0x22) then Err JSONDecodeError
      else
        '(key, s1) <- scanstring r ;;
        match skip_ws s1 with
        | [] => Err JSONDecodeError
        | colon :: s2 =>
          if negb (colon =? 0x3A) then Err JSONDecodeError
          else
            '(v, s3) <- scan_once fuel' (skip_ws s2) ;;
            let acc' := dict_set key v acc in
            match skip_ws s3 with
            | [] => Err JSONDecodeError
            | d :: s4 =>
              if d =? 0x7D then Ok (JObject acc', s4)
              else if d =? 0x2C then object_loop fuel' acc' (skip_ws s4)
              else Err JSONDecodeError
            end
        end
    end
  end

with array_loop (fuel : nat) (acc : list value) (s : str) {struct fuel}
  : result (value * str) :=
  match fuel with
  | O => Err RecursionError
  | S fuel' =>
    '(v, s1) <- scan_once fuel' s ;;
    let acc' := acc ++ [v] in
    match skip_ws s1 with
    | [] => Err JSONDecodeError
    | d :: s2 =>
      if d =? 0x5D then Ok (JArray acc', s2)
      else if d =? 0x2C then array_loop fuel' acc' (skip_ws s2)
      else Err JSONDecodeError
    end
  end.

(** [json.loads] of a [str].  The fuel is more than the scanner can use
    up on a text of that length; the interpreter's own recursion limit is
    not modelled. *)
Definition loads (s : str) : result value :=
  '(v, rest) <- scan_once (S (2 * List.length s)) (skip_ws s) ;;
  match skip_ws rest with
  | [] => Ok v
  | _ :: _ => Err JSONDecodeError
  end.

End Json.

(** ** The [Message] envelope *)

Module Envelope.
Import Py Json.

Record Message : Type := { sender : str; message : str }.

(** Modelled from the spec: the [Message] class ([message.py] is not among
    the sources).  The envelope has the two fields [sender] and [message],
    both text; constructing it from anything but two strings is refused. *)
Definition Message_new (s m : value) : result Message :=
  match s, m with
  | JString s', JString m' => Ok {| sender := s'; message := m' |}
  | _, _ => Err ValidationError
  end.

(** Modelled from the spec: [Message.json()], a JSON object with exactly
    the two keys [sender] and [message], values verbatim, written by
    [json.dumps] with its defaults. *)
Definition Message_json (msg : Message) : str :=
  dumps_dict [(lit "sender", sender msg); (lit "message", message msg)].

(** Modelled from the spec: [Message.dict()], the plain key/value mapping. *)
Definition Message_dict (msg : Message) : dict :=
  [(lit "sender", JString (sender msg)); (lit "message", JString (message msg))].

End Envelope.

(** ** Subscripting and comparison of parsed JSON *)

Module Obj.
Import Py Json.

(** [v[key]] with a string key. *)
Definition getitem (v : value) (key : str) : result value :=
  match v with
  | JObject d =>
    match dict_get key d with
    | Some x => Ok x
    | None => Err KeyError
    end
  | _ => Err TypeError
  end.

(** [v[0]]. *)
Definition getitem0 (v : value) : result value :=
  match v with
  | JArray (x :: _) => Ok x
  | JArray [] => Err IndexError
  | JString (c :: _) => Ok (JString [c])
  | JString [] => Err IndexError
  | JObject _ => Err KeyError
  | _ => Err TypeError
  end.

(** [v == "text"]. *)
Definition eq_str (v : value) (s : str) : bool :=
  match v with
  | JString s' => str_eqb s' s
  | _ => false
  end.

(** [a + b] where [b] is a [str]. *)
Definition add_str (a : value) (b : str) : result str :=
  match a with
  | JString s => Ok (s ++ b)
  | _ => Err TypeError
  end.

(** [a + b] where [a] is a [str]. *)
Definition str_add (a : str) (b : value) : result str :=
  match b with
  | JString s => Ok (a ++ s)
  | _ => Err TypeError
  end.

End Obj.

(** ** [reader.py] *)

Module Reader.
Import Py Json Envelope Obj.

(** The pravega reader handle, as far as the wrapper uses it. *)
Record p_reader : Type := { released : nat; offline : nat }.

Definition release_segment (p : p_reader) : p_reader :=
  {| released := S (released p); offline := offline p |}.

Definition reader_offline (p : p_reader) : p_reader :=
  {| released := released p; offline := S (offline p) |}.

(** The names bound at module level in [reader.py]: its three imports and
    the class it defines. *)
Definition module_globals : list string :=
  ["json"; "Message"; "requests"; "MyReader"]%string.

(** Evaluating a global name: one the module does not bind raises
    [NameError]. *)
Definition load_global (globals : list string) (name : string) : result unit :=
  if List.existsb (String.eqb name) globals then Ok tt
  else Err (NameError name).

Section MyReader.
Variable U : unicode_db.
(** [requests.get(url).text]: the provider's answer, or the exception. *)
Variable requests_get : str -> result str.
(** [self.id] *)
Variable id : str.

Definition joke_url : str :=
  lit "https://official-joke-api.appspot.com/random_ten".

Definition _tell_joke : result str :=
  text <- requests_get joke_url ;;
  parsed <- loads text ;;
  tt <- getitem0 parsed ;;
  setup <- getitem tt (lit "setup") ;;
  line1 <- add_str setup [0x0A] ;;
  punchline <- getitem tt (lit "punchline") ;;
  str_add line1 punchline.

Definition _greet (sender : str) : result str :=
  Ok (sender ++ lit " says hi!").

(** Lines 40-44 of [_process_message]: the batch as parsed JSON and as a
    validated envelope. *)
Definition decode_batch (buff : list bytes) : result (value * Message) :=
  decoded <- mapM utf8_decode buff ;;
  let stringify := lower U (strip (List.concat decoded)) in
  jsonify <- loads stringify ;;
  s <- getitem jsonify (lit "sender") ;;
  m <- getitem jsonify (lit "message") ;;
  incoming <- Message_new s m ;;
  Ok (jsonify, incoming).

Definition _process_message (buff : list bytes) : result (option dict) :=
  '(jsonify, incoming) <- decode_batch buff ;;
  if str_eqb (sender incoming) id then Ok None
  else
    message <- getitem jsonify (lit "message") ;;
    msg <-
      (if eq_str message (lit "greet") then
         g <- _greet (sender incoming) ;; Ok (JString g)
       else if eq_str message (lit "joke") then
         j <- _tell_joke ;; Ok (JString j)
       else Ok message) ;;
    resp <- Message_new (JString (sender incoming)) msg ;;
    Ok (Some (Message_dict resp)).

Definition close (p : p_reader) : p_reader := reader_offline p.

(** [read]: [slice] is what [get_segment_slice_async] delivers, the
    events' payloads or the exception it raises. *)
Definition read (slice : result (list bytes)) (p : p_reader)
  : result (option dict) * p_reader :=
  let body : result (option dict) * p_reader :=
    match slice with
    | Err e => (Err e, p)
    | Ok buff =>
      let p' := release_segment p in
      if (0 <? List.length buff)%nat then (_process_message buff, p')
      else (Ok None, p')
    end in
  match body with
  | (Ok r, p') => (Ok r, p')
  | (Err e, p') =>
    (* except Exception as e: logging.error(str(e)) *)
    (_ <- load_global module_globals "logging" ;; Ok None, p')
  end.
End MyReader.

End Reader.

(** ** [writer.py] *)

Module Writer.
Import Py Json Envelope.

Section MyWriter.
(** [self.id] *)
Variable id : str.

Definition _format_message (message : str) : result str :=
  msg <- Message_new (JString id) (JString message) ;;
  Ok (Message_json msg).

(** [write]: the stream is the list of events published so far;
    [write_event] appends the UTF-8 bytes of the text it is given. *)
Definition write (message : str) (stream : list bytes) : result (list bytes) :=
  msg <- _format_message message ;;
  event <- utf8_encode msg ;;
  Ok (stream ++ [event]).
End MyWriter.

End Writer.

(** ** [chatter.py] *)

Module Chatter.
Import Py Json Envelope Obj.

(** When SIGINT (whose handler calls [MyChatter.close]) arrives within one
    pass of the read loop, relative to the pending broker read. *)
Inductive signal : Type :=
| NoSignal
| BeforeReadReturns
| AfterReadReturns.

(** One pass of the read loop as the environment drives it. *)
Record cycle : Type := { slice : result (list bytes); sigint : signal }.

Inductive event : Type :=
| EvStop                    (* [running] set to [False] *)
| EvRead                    (* a broker read has returned or raised *)
| EvPrint (text : str)
| EvOffline.                (* [reader_offline] called *)

Inductive outcome : Type :=
| Finished
| Raised (e : exn)
| Waiting.                  (* suspended in a read that has not returned *)

Record MyChatter : Type := { running : bool; reader : Reader.p_reader }.

Definition close (ch : MyChatter) : MyChatter :=
  {| running := false; reader := reader ch |}.

Definition set_reader (ch : MyChatter) (p : Reader.p_reader) : MyChatter :=
  {| running := running ch; reader := p |}.

(** [str(v)] inside an f-string, for the values a response holds. *)
Definition format_value (v : value) : result str :=
  match v with
  | JString s => Ok s
  | _ => Err TypeError
  end.

Section Loops.
Variable U : unicode_db.
Variable requests_get : str -> result str.
(** [self.id] *)
Variable id : str.

(** The three [print] calls of lines 40-43. *)
Definition show (msg : dict) : result (list event) :=
  s <- getitem (JObject msg) (lit "sender") ;;
  s' <- format_value s ;;
  m <- getitem (JObject msg) (lit "message") ;;
  m' <- format_value m ;;
  Ok [EvPrint (List.repeat 0x08 (List.length id + 2));
      EvPrint (s' ++ lit ": " ++ m' ++ [0x0A] ++ [0x0A]);
      EvPrint (id ++ lit ": ")].

Definition on_signal (when_ at_ : signal) (ch : MyChatter)
  : list event * MyChatter :=
  match when_, at_ with
  | BeforeReadReturns, BeforeReadReturns => ([EvStop], close ch)
  | AfterReadReturns, AfterReadReturns => ([EvStop], close ch)
  | _, _ => ([], ch)
  end.

(** [read]: the loop of lines 34-43 followed by [reader.close()]. *)
Fixpoint read (cycles : list cycle) (ch : MyChatter)
  : list event * outcome * MyChatter :=
  if running ch then
    match cycles with
    | [] => ([], Waiting, ch)
    | c :: rest =>
      let (ev1, ch1) := on_signal (sigint c) BeforeReadReturns ch in
      let (r, p') := Reader.read U requests_get id (slice c) (reader ch1) in
      let ch2 := set_reader ch1 p' in
      match r with
      | Err e => (ev1 ++ [EvRead], Raised e, ch2)
      | Ok msg =>
        let shown :=
          match msg with
          | Some ((_ :: _) as d) => show d
          | _ => Ok []
          end in
        match shown with
        | Err e => (ev1 ++ [EvRead], Raised e, ch2)
        | Ok prints =>
          let (ev2, ch3) := on_signal (sigint c) AfterReadReturns ch2 in
          let '(evs, o, ch') := read rest ch3 in
          (ev1 ++ EvRead :: prints ++ ev2 ++ evs, o, ch')
        end
      end
    end
  else ([EvOffline], Finished, set_reader ch (Reader.close (reader ch))).

(** One pass of the write loop: lines 53-56 on the line [input] returns. *)
Definition write_pass (line : str) (stream : list bytes)
  : result (list bytes) :=
  let message := lower U (strip line) in
  match message with
  | [] => Ok stream
  | _ :: _ => Writer.write id message stream
  end.

(** [write]: each console line comes with whether SIGINT arrives while
    the loop is in that pass. *)
Fixpoint write (lines : list (str * bool)) (running : bool)
    (stream : list bytes) : outcome * list bytes :=
  if running then
    match lines with
    | [] => (Waiting, stream)
    | (line, stop) :: rest =>
      match write_pass line stream with
      | Err e => (Raised e, stream)
      | Ok stream' => write rest (negb stop) stream'
      end
    end
  else (Finished, stream).
End Loops.

End Chatter.

(** * Properties *)

(** ** Strings *)

Module PyFacts.
Import Py.

Ltac bool_hyps :=
  repeat match goal with
  | H : _ && _ = true |- _ => apply andb_true_iff in H as [? ?]
  | H : negb _ = true |- _ => apply negb_true_iff in H
  | H : negb _ = false |- _ => apply negb_false_iff in H
  | H : (_ <=? _) = true |- _ => apply Z.leb_le in H
  | H : (_ <=? _) = false |- _ => apply Z.leb_gt in H
  | H : (_ <? _) = true |- _ => apply Z.ltb_lt in H
  | H : (_ <? _) = false |- _ => apply Z.ltb_ge in H
  | H : (_ =? _) = true |- _ => apply Z.eqb_eq in H
  | H : (_ =? _) = false |- _ => apply Z.eqb_neq in H
  end.

Lemma is_scalar_spec (c : Z) :
  is_scalar c = true <-> 0 <= c <= 0x10FFFF /\ ~ (0xD800 <= c <= 0xDFFF).
Proof.
  unfold is_scalar. split.
  - intros H. bool_hyps.
    destruct (55296 <=? c) eqn:E1; destruct (c <=? 57343) eqn:E2;
      simpl in *; try discriminate; bool_hyps; lia.
  - intros [H1 H2]. apply andb_true_iff; split.
    + apply andb_true_iff; split; apply Z.leb_le; lia.
    + apply negb_true_iff, andb_false_iff.
      destruct (Z_le_gt_dec 55296 c); [right | left]; apply Z.leb_gt; lia.
Qed.

Lemma str_eqb_eq (a b : str) : str_eqb a b = true <-> a = b.
Proof.
  revert b; induction a as [|x a IH]; intros [|y b]; simpl; split;
    try congruence; try reflexivity.
  - intros H. apply andb_true_iff in H as [Hx Hab].
    apply Z.eqb_eq in Hx. apply IH in Hab. congruence.
  - intros H. injection H as -> ->. rewrite Z.eqb_refl. simpl.
    apply IH. reflexivity.
Qed.

Lemma str_eqb_refl (a : str) : str_eqb a a = true.
Proof. apply str_eqb_eq. reflexivity. Qed.

Lemma str_eqb_neq (a b : str) : str_eqb a b = false <-> a <> b.
Proof.
  split.
  - intros H E. apply str_eqb_eq in E. congruence.
  - intros H. destruct (str_eqb a b) eqn:E; [|reflexivity].
    apply str_eqb_eq in E. contradiction.
Qed.

Definition is_ascii (c : Z) : Prop := 0 <= c < 0x80.

Section LowerFacts.
Variable U : unicode_db.

Lemma do_lower_ascii (t before : str) :
  Forall is_ascii t -> do_lower U before t = List.map ascii_lower t.
Proof.
  intros H. revert before. induction H as [|c t Hc Ht IH]; intros before.
  - reflexivity.
  - cbn [do_lower List.map]. rewrite IH. unfold is_ascii in Hc.
    replace (c =? 931) with false by (symmetry; apply Z.eqb_neq; lia).
    unfold lower_char.
    replace ((0 <=? c) && (c <? 128)) with true; [reflexivity|].
    symmetry. apply andb_true_iff. split.
    + apply Z.leb_le; lia.
    + apply Z.ltb_lt; lia.
Qed.

(** On ASCII text [str.lower()] maps [A-Z] to [a-z] and nothing else. *)
Lemma lower_ascii (t : str) :
  Forall is_ascii t -> lower U t = List.map ascii_lower t.
Proof. apply do_lower_ascii. Qed.
End LowerFacts.

Lemma lstrip_nonspace (c : Z) (t : str) :
  isspace c = false -> lstrip (c :: t) = c :: t.
Proof. intros H. cbn [lstrip]. rewrite H. reflexivity. Qed.

(** Text that neither starts nor ends with white space is left alone. *)
Lemma strip_delimited (a b : Z) (mid : str) :
  isspace a = false -> isspace b = false ->
  strip (a :: mid ++ [b]) = a :: mid ++ [b].
Proof.
  intros Ha Hb. unfold strip, rstrip. rewrite lstrip_nonspace by assumption.
  change (a :: mid ++ [b]) with ((a :: mid) ++ [b]).
  rewrite rev_app_distr. cbn [rev app].
  rewrite lstrip_nonspace by assumption.
  change (b :: rev mid ++ [a]) with ([b] ++ rev (a :: mid)).
  rewrite rev_app_distr, rev_involutive. reflexivity.
Qed.

Lemma utf8_encode_ascii (t : str) :
  Forall is_ascii t -> utf8_encode t = Ok t.
Proof.
  induction 1 as [|c t Hc Ht IH]; [reflexivity|].
  cbn [utf8_encode]. rewrite IH. unfold utf8_encode_char, is_ascii in *.
  replace (is_scalar c) with true.
  - replace (c <? 128) with true by (symmetry; apply Z.ltb_lt; lia).
    reflexivity.
  - symmetry. unfold is_scalar.
    replace (0 <=? c) with true by (symmetry; apply Z.leb_le; lia).
    replace (c <=? 1114111) with true by (symmetry; apply Z.leb_le; lia).
    replace (55296 <=? c) with false by (symmetry; apply Z.leb_gt; lia).
    reflexivity.
Qed.

Lemma utf8_decode_fuel_ascii (t : bytes) (fuel : nat) :
  Forall is_ascii t -> (List.length t <= fuel)%nat ->
  utf8_decode_fuel fuel t = Ok t.
Proof.
  intros H. revert fuel. induction H as [|c t Hc Ht IH]; intros fuel Hf.
  - destruct fuel; reflexivity.
  - destruct fuel as [|fuel]; [cbn in Hf; lia|].
    cbn [utf8_decode_fuel utf8_next]. unfold is_ascii in Hc.
    replace ((0 <=? c) && (c <? 128)) with true.
    + cbn [bind]. rewrite IH by (cbn in Hf; lia). reflexivity.
    + symmetry. apply andb_true_iff. split.
      * apply Z.leb_le; lia.
      * apply Z.ltb_lt; lia.
Qed.

Lemma utf8_decode_ascii (t : bytes) :
  Forall is_ascii t -> utf8_decode t = Ok t.
Proof. intros H. apply utf8_decode_fuel_ascii; [assumption | lia]. Qed.

Lemma utf8_next_app (a b : bytes) (c : Z) (r : bytes) :
  utf8_next a = Ok (c, r) -> utf8_next (a ++ b) = Ok (c, r ++ b).
Proof.
  unfold utf8_next.
  destruct a as [|b0 [|b1 [|b2 [|b3 a]]]]; cbn [app]; try discriminate;
    repeat match goal with
    | |- context [if ?x then _ else _] => destruct x
    end; intros H; inversion H; subst; try reflexivity.
Qed.

Lemma utf8_decode_fuel_mono (f f' : nat) (bs : bytes) (x : str) :
  utf8_decode_fuel f bs = Ok x -> (f <= f')%nat ->
  utf8_decode_fuel f' bs = Ok x.
Proof.
  revert f' bs x. induction f as [|f IH]; intros f' bs x H Hle.
  - destruct bs; [|discriminate]. destruct f'; exact H.
  - destruct bs as [|b0 bs]; [destruct f'; exact H|].
    destruct f' as [|f']; [lia|].
    cbn [utf8_decode_fuel] in *.
    destruct (utf8_next (b0 :: bs)) as [[c rest]|]; [|discriminate].
    cbn [bind] in *.
    destruct (utf8_decode_fuel f rest) as [cs|] eqn:E; [|discriminate].
    rewrite (IH f' rest cs E) by lia. exact H.
Qed.

Lemma utf8_decode_fuel_app (fa fb : nat) (a b : bytes) (x y : str) :
  utf8_decode_fuel fa a = Ok x ->
  utf8_decode_fuel fb b = Ok y ->
  utf8_decode_fuel (fa + fb) (a ++ b) = Ok (x ++ y).
Proof.
  revert a x. induction fa as [|fa IH]; intros a x Ha Hb.
  - destruct a; [|discriminate]. injection Ha as <-. exact Hb.
  - destruct a as [|b0 a].
    + injection Ha as <-. cbn [app].
      apply utf8_decode_fuel_mono with (f := fb); [exact Hb | lia].
    + cbn [utf8_decode_fuel] in Ha.
      destruct (utf8_next (b0 :: a)) as [[c rest]|] eqn:En; [|discriminate].
      cbn [bind] in Ha.
      destruct (utf8_decode_fuel fa rest) as [cs|] eqn:E; [|discriminate].
      injection Ha as <-.
      change ((b0 :: a) ++ b) with (b0 :: (a ++ b)).
      change (S fa + fb)%nat with (S (fa + fb)).
      cbn [utf8_decode_fuel].
      change (b0 :: (a ++ b)) with ((b0 :: a) ++ b).
      rewrite (utf8_next_app _ b _ _ En). cbn [bind].
      rewrite (IH rest cs E Hb). reflexivity.
Qed.

Lemma utf8_decode_app (a b : bytes) (x y : str) :
  utf8_decode a = Ok x -> utf8_decode b = Ok y ->
  utf8_decode (a ++ b) = Ok (x ++ y).
Proof.
  unfold utf8_decode. intros Ha Hb. rewrite length_app.
  apply utf8_decode_fuel_app; assumption.
Qed.

(** Decoding the fragments one by one and joining the text, as the reader
    does, agrees with decoding the concatenated bytes whenever every
    fragment decodes. *)
Lemma utf8_decode_concat (buff : list bytes) (decoded : list str) :
  mapM utf8_decode buff = Ok decoded ->
  utf8_decode (List.concat buff) = Ok (List.concat decoded).
Proof.
  revert decoded. induction buff as [|a buff IH]; intros decoded H.
  - injection H as <-. reflexivity.
  - cbn [mapM] in H.
    destruct (utf8_decode a) as [x|] eqn:Ea; [|discriminate].
    cbn [bind] in H.
    destruct (mapM utf8_decode buff) as [xs|]; [|discriminate].
    injection H as <-. cbn [List.concat].
    apply utf8_decode_app; [assumption | apply IH; reflexivity].
Qed.

Lemma utf8_next_shorter (bs : bytes) (c : Z) (rest : bytes) :
  utf8_next bs = Ok (c, rest) -> (List.length rest < List.length bs)%nat.
Proof.
  unfold utf8_next.
  destruct bs as [|b0 [|b1 [|b2 [|b3 a]]]]; try discriminate;
    repeat match goal with
    | |- context [if ?x then _ else _] => destruct x
    end; intros H; inversion H; subst; cbn [List.length]; lia.
Qed.

(** The fuel [utf8_decode] starts with is never used up: more of it
    changes nothing. *)
Lemma utf8_decode_fuel_enough (f : nat) (bs : bytes) :
  (List.length bs <= f)%nat -> utf8_decode_fuel f bs = utf8_decode bs.
Proof.
  unfold utf8_decode. remember (List.length bs) as n eqn:En.
  revert bs En f. induction n as [n IH] using lt_wf_ind.
  intros bs En f Hf. destruct bs as [|b0 bs].
  - subst n. destruct f; reflexivity.
  - destruct f as [|f]; [subst n; cbn in Hf; lia|].
    destruct n as [|n]; [discriminate|].
    cbn [utf8_decode_fuel].
    destruct (utf8_next (b0 :: bs)) as [[c rest]|] eqn:E; [|reflexivity].
    cbn [bind]. pose proof (utf8_next_shorter _ _ _ E) as Hlt.
    cbn [List.length] in En, Hlt.
    rewrite (IH (List.length rest)) with (f := f) by lia.
    rewrite (IH (List.length rest)) with (f := n) by lia.
    reflexivity.
Qed.

Lemma utf8_next_error (bs : bytes) (e : exn) :
  utf8_next bs = Err e -> e = UnicodeDecodeError.
Proof.
  unfold utf8_next.
  destruct bs as [|b0 [|b1 [|b2 [|b3 a]]]];
    repeat match goal with
    | |- context [if ?x then _ else _] => destruct x
    end; intros H; inversion H; reflexivity.
Qed.

Lemma utf8_decode_fuel_error (f : nat) (bs : bytes) (e : exn) :
  utf8_decode_fuel f bs = Err e -> e = UnicodeDecodeError.
Proof.
  revert bs. induction f as [|f IH]; intros bs H.
  - destruct bs; inversion H; reflexivity.
  - destruct bs as [|b0 bs]; [discriminate|].
    cbn [utf8_decode_fuel] in H.
    destruct (utf8_next (b0 :: bs)) as [[c rest]|e'] eqn:En.
    + cbn [bind] in H. destruct (utf8_decode_fuel f rest) eqn:E.
      * discriminate.
      * injection H as <-. apply (IH rest). exact E.
    + injection H as <-. apply (utf8_next_error _ _ En).
Qed.

Lemma mapM_utf8_decode_error (buff : list bytes) (e : exn) :
  mapM utf8_decode buff = Err e -> e = UnicodeDecodeError.
Proof.
  induction buff as [|a buff IH]; [discriminate|].
  cbn [mapM]. destruct (utf8_decode a) eqn:Ea.
  - cbn [bind]. destruct (mapM utf8_decode buff); [discriminate|].
    intros H. injection H as <-. apply IH. reflexivity.
  - intros H. injection H as <-.
    apply (utf8_decode_fuel_error _ _ _ Ea).
Qed.

End PyFacts.

(** ** The JSON codec on strings *)

Module JsonFacts.
Import Py Json.
Import PyFacts.

Definition scalar_str (s : str) : Prop := Forall (fun c => is_scalar c = true) s.

Lemma scalar_str_check (s : str) :
  List.forallb is_scalar s = true -> scalar_str s.
Proof.
  intros H. apply Forall_forall. intros c Hc.
  rewrite forallb_forall in H. apply H. exact Hc.
Qed.

Lemma hex_digit_ascii (d : Z) : 0 <= d < 16 -> is_ascii (hex_digit d).
Proof. unfold hex_digit, is_ascii. destruct (d <? 10); lia. Qed.

Lemma hex_digit_lower (d : Z) : ascii_lower (hex_digit d) = hex_digit d.
Proof.
  unfold hex_digit, ascii_lower.
  destruct (d <? 10) eqn:E; bool_hyps.
  - replace (48 + d <=? 90) with true by (symmetry; apply Z.leb_le; lia).
    replace (65 <=? 48 + d) with false by (symmetry; apply Z.leb_gt; lia).
    reflexivity.
  - replace (87 + d <=? 90) with false by (symmetry; apply Z.leb_gt; lia).
    rewrite andb_false_r. reflexivity.
Qed.

Lemma u_escape_lower (n : Z) : List.map ascii_lower (u_escape n) = u_escape n.
Proof.
  unfold u_escape, hex4. cbn [List.map]. rewrite !hex_digit_lower.
  reflexivity.
Qed.

Lemma u_escape_ascii (n : Z) : 0 <= n < 65536 -> Forall is_ascii (u_escape n).
Proof.
  intros H. unfold u_escape, hex4.
  repeat apply Forall_cons; try (unfold is_ascii; lia);
    try apply Forall_nil; apply hex_digit_ascii;
    Z.div_mod_to_equations; lia.
Qed.

Lemma ascii_lower_scalar (c : Z) :
  is_scalar c = true -> is_scalar (ascii_lower c) = true.
Proof.
  intros H. unfold ascii_lower.
  destruct ((65 <=? c) && (c <=? 90)) eqn:E; [|assumption].
  bool_hyps. apply is_scalar_spec. lia.
Qed.

Lemma escape_char_ascii (c : Z) :
  is_scalar c = true -> Forall is_ascii (escape_char c).
Proof.
  intros Hs. apply is_scalar_spec in Hs as [Hr Hns]. unfold escape_char.
  destruct ((32 <=? c) && (c <=? 126) && negb (c =? 92) && negb (c =? 34))
    eqn:E.
  { bool_hyps. repeat constructor; lia. }
  repeat match goal with
  | |- context [if ?c =? ?k then _ else _] =>
    destruct (c =? k); [repeat constructor; lia|]
  end.
  destruct (65536 <=? c) eqn:E8; bool_hyps.
  - cbv zeta. apply Forall_app. split; apply u_escape_ascii;
      Z.div_mod_to_equations; lia.
  - apply u_escape_ascii. lia.
Qed.

Lemma escape_char_lower (c : Z) :
  List.map ascii_lower (escape_char c) = escape_char (ascii_lower c).
Proof.
  unfold ascii_lower at 2.
  destruct ((65 <=? c) && (c <=? 90)) eqn:Eu.
  - bool_hyps. unfold escape_char.
    replace ((32 <=? c) && (c <=? 126) && negb (c =? 92) && negb (c =? 34))
      with true.
    2:{ symmetry. repeat (apply andb_true_iff; split);
        try apply negb_true_iff; try apply Z.eqb_neq; try apply Z.leb_le; lia. }
    replace ((32 <=? c + 32) && (c + 32 <=? 126) && negb (c + 32 =? 92)
             && negb (c + 32 =? 34)) with true.
    2:{ symmetry. repeat (apply andb_true_iff; split);
        try apply negb_true_iff; try apply Z.eqb_neq; try apply Z.leb_le; lia. }
    cbn [List.map]. unfold ascii_lower.
    replace ((65 <=? c) && (c <=? 90)) with true; [reflexivity|].
    symmetry. apply andb_true_iff; split; apply Z.leb_le; lia.
  - unfold escape_char.
    destruct ((32 <=? c) && (c <=? 126) && negb (c =? 92) && negb (c =? 34)).
    { cbn [List.map]. unfold ascii_lower. rewrite Eu. reflexivity. }
    repeat match goal with
    | |- context [if ?c =? ?k then _ else _] =>
      destruct (c =? k); [reflexivity|]
    end.
    destruct (65536 <=? c).
    + cbv zeta. rewrite map_app, !u_escape_lower. reflexivity.
    + apply u_escape_lower.
Qed.

Lemma escape_ascii (s : str) : scalar_str s -> Forall is_ascii (escape s).
Proof.
  induction 1 as [|c s Hc Hs IH]; [constructor|].
  unfold escape in *. cbn [flat_map]. apply Forall_app. split.
  - apply escape_char_ascii. assumption.
  - assumption.
Qed.

Lemma escape_lower (s : str) :
  List.map ascii_lower (escape s) = escape (List.map ascii_lower s).
Proof.
  induction s as [|c s IH]; [reflexivity|].
  unfold escape in *. cbn [flat_map List.map].
  rewrite map_app, escape_char_lower, IH. reflexivity.
Qed.

Lemma map_lower_scalar (s : str) :
  scalar_str s -> scalar_str (List.map ascii_lower s).
Proof.
  induction 1; cbn [List.map]; constructor;
    [apply ascii_lower_scalar|]; assumption.
Qed.

Lemma dumps_str_ascii (s : str) : scalar_str s -> Forall is_ascii (dumps_str s).
Proof.
  intros H. unfold dumps_str. constructor; [unfold is_ascii; lia|].
  apply Forall_app. split; [apply escape_ascii; assumption|].
  repeat constructor; lia.
Qed.

Lemma dumps_str_lower (s : str) :
  List.map ascii_lower (dumps_str s) = dumps_str (List.map ascii_lower s).
Proof.
  unfold dumps_str. cbn [List.map]. rewrite map_app, escape_lower.
  reflexivity.
Qed.


Lemma hex_val_digit (d : Z) : 0 <= d < 16 -> hex_val (hex_digit d) = Some d.
Proof.
  intros H. unfold hex_val, hex_digit.
  destruct (d <? 10) eqn:E.
  - apply Z.ltb_lt in E.
    replace ((48 <=? 48 + d) && (48 + d <=? 57)) with true
      by (symmetry; apply andb_true_iff; split; apply Z.leb_le; lia).
    f_equal. lia.
  - apply Z.ltb_ge in E.
    replace ((48 <=? 87 + d) && (87 + d <=? 57)) with false
      by (symmetry; apply andb_false_iff; right; apply Z.leb_gt; lia).
    replace ((97 <=? 87 + d) && (87 + d <=? 102)) with true
      by (symmetry; apply andb_true_iff; split; apply Z.leb_le; lia).
    f_equal. lia.
Qed.

Lemma hex4_val_hex4 (n : Z) :
  0 <= n < 65536 ->
  hex4_val (hex_digit (n / 4096)) (hex_digit ((n / 256) mod 16))
           (hex_digit ((n / 16) mod 16)) (hex_digit (n mod 16)) = Some n.
Proof.
  intros H. unfold hex4_val.
  rewrite !hex_val_digit;
    try (pose proof (Z.mod_pos_bound (n / 256) 16);
         pose proof (Z.mod_pos_bound (n / 16) 16);
         pose proof (Z.mod_pos_bound n 16); lia).
  - f_equal. Z.div_mod_to_equations. lia.
  - split; [apply Z.div_pos; lia | apply Z.div_lt_upper_bound; lia].
Qed.

Lemma scanstring_u (h1 h2 h3 h4 : Z) (r2 : str) :
  scanstring (0x5C :: 0x75 :: h1 :: h2 :: h3 :: h4 :: r2) =
  match hex4_val h1 h2 h3 h4 with
  | None => Err JSONDecodeError
  | Some u =>
    if is_high_surrogate u then
      match r2 with
      | b :: u' :: l1 :: l2 :: l3 :: l4 :: r3 =>
        if (b =? 0x5C) && (u' =? 0x75) then
          match hex4_val l1 l2 l3 l4 with
          | None => Err JSONDecodeError
          | Some lo =>
            if is_low_surrogate lo
            then push (join_surrogates u lo) (scanstring r3)
            else push u (scanstring r2)
          end
        else push u (scanstring r2)
      | _ => push u (scanstring r2)
      end
    else push u (scanstring r2)
  end.
Proof. reflexivity. Qed.

Lemma scanstring_u_escape (n : Z) (tail : str) :
  0 <= n < 65536 ->
  is_high_surrogate n = false ->
  scanstring (u_escape n ++ tail) = push n (scanstring tail).
Proof.
  intros Hn Hhi. unfold u_escape, hex4. cbn [app].
  rewrite scanstring_u, hex4_val_hex4 by assumption.
  rewrite Hhi. reflexivity.
Qed.

Lemma scanstring_surrogate_pair (hi lo : Z) (tail : str) :
  0xD800 <= hi <= 0xDBFF ->
  0xDC00 <= lo <= 0xDFFF ->
  scanstring (u_escape hi ++ u_escape lo ++ tail)
  = push (join_surrogates hi lo) (scanstring tail).
Proof.
  intros Hhi Hlo. unfold u_escape, hex4. cbn [app].
  rewrite scanstring_u, hex4_val_hex4 by lia.
  replace (is_high_surrogate hi) with true
    by (symmetry; apply andb_true_iff; split; apply Z.leb_le; lia).
  change ((92 =? 92) && (117 =? 117)) with true. cbv iota.
  rewrite hex4_val_hex4 by lia.
  replace (is_low_surrogate lo) with true
    by (symmetry; apply andb_true_iff; split; apply Z.leb_le; lia).
  reflexivity.
Qed.

Lemma scanstring_plain (c : Z) (tail : str) :
  c <> 0x22 -> c <> 0x5C -> 0x1F < c ->
  scanstring (c :: tail) = push c (scanstring tail).
Proof.
  intros H1 H2 H3. cbn [scanstring].
  apply Z.eqb_neq in H1, H2. rewrite H1, H2.
  replace (c <=? 31) with false by (symmetry; apply Z.leb_gt; lia).
  reflexivity.
Qed.

Lemma scanstring_escape_char (c : Z) (tail : str) :
  is_scalar c = true ->
  scanstring (escape_char c ++ tail) = push c (scanstring tail).
Proof.
  intros Hs. apply is_scalar_spec in Hs as [Hr Hns]. unfold escape_char.
  destruct ((32 <=? c) && (c <=? 126) && negb (c =? 92) && negb (c =? 34))
    eqn:E.
  { bool_hyps. apply scanstring_plain; lia. }
  destruct (c =? 92) eqn:E1; [bool_hyps; subst; reflexivity|].
  destruct (c =? 34) eqn:E2; [bool_hyps; subst; reflexivity|].
  destruct (c =? 8) eqn:E3; [bool_hyps; subst; reflexivity|].
  destruct (c =? 12) eqn:E4; [bool_hyps; subst; reflexivity|].
  destruct (c =? 10) eqn:E5; [bool_hyps; subst; reflexivity|].
  destruct (c =? 13) eqn:E6; [bool_hyps; subst; reflexivity|].
  destruct (c =? 9) eqn:E7; [bool_hyps; subst; reflexivity|].
  destruct (65536 <=? c) eqn:E8; bool_hyps.
  - cbv zeta. rewrite <- app_assoc.
    rewrite scanstring_surrogate_pair.
    + f_equal. unfold join_surrogates. Z.div_mod_to_equations. lia.
    + Z.div_mod_to_equations. lia.
    + Z.div_mod_to_equations. lia.
  - apply scanstring_u_escape; [lia|].
    apply andb_false_iff.
    destruct (Z_le_gt_dec 55296 c); [right | left]; apply Z.leb_gt; lia.
Qed.

Lemma push_push (c : Z) (s rest : str) :
  push c (Ok (s, rest)) = Ok (c :: s, rest).
Proof. reflexivity. Qed.

(** Scanning the escaped form of a string up to its closing quote gives
    the string back. *)
Lemma scanstring_escape (s tail : str) :
  Forall (fun c => is_scalar c = true) s ->
  scanstring (escape s ++ 0x22 :: tail) = Ok (s, tail).
Proof.
  induction 1 as [|c s Hc Hs IH].
  - reflexivity.
  - unfold escape in *. cbn [flat_map]. rewrite <- app_assoc.
    rewrite scanstring_escape_char by assumption.
    rewrite IH. reflexivity.
Qed.

Lemma scan_once_string (f : nat) (r : str) :
  scan_once (S f) (0x22 :: r)
  = '(k, rest) <- scanstring r ;; Ok (JString k, rest).
Proof. reflexivity. Qed.

Lemma scan_once_object (f : nat) (r : str) :
  scan_once (S f) (0x7B :: 0x22 :: r) = object_loop f [] (0x22 :: r).
Proof. reflexivity. Qed.

Lemma object_loop_member (f : nat) (acc : dict) (r : str) :
  object_loop (S f) acc (0x22 :: r) =
  '(key, s1) <- scanstring r ;;
  match skip_ws s1 with
  | [] => Err JSONDecodeError
  | colon :: s2 =>
    if negb (colon =? 0x3A) then Err JSONDecodeError
    else
      '(v, s3) <- scan_once f (skip_ws s2) ;;
      let acc' := dict_set key v acc in
      match skip_ws s3 with
      | [] => Err JSONDecodeError
      | d :: s4 =>
        if d =? 0x7D then Ok (JObject acc', s4)
        else if d =? 0x2C then object_loop f acc' (skip_ws s4)
        else Err JSONDecodeError
      end
  end.
Proof. reflexivity. Qed.

(** One [key: "value"] member whose value is a string, followed by [d]. *)
Lemma object_loop_string_member (f : nat) (acc : dict) (k v : str) (d : Z)
    (tail : str) :
  Forall (fun c => is_scalar c = true) k ->
  Forall (fun c => is_scalar c = true) v ->
  is_ws d = false ->
  object_loop (S (S f)) acc
    (dumps_str k ++ lit ": " ++ dumps_str v ++ d :: tail)
  = let acc' := dict_set k (JString v) acc in
    if d =? 0x7D then Ok (JObject acc', tail)
    else if d =? 0x2C then object_loop (S f) acc' (skip_ws tail)
    else Err JSONDecodeError.
Proof.
  intros Hk Hv Hd. unfold dumps_str. change (lit ": ") with [58; 32].
  cbn [app]. rewrite <- !app_assoc. cbn [app].
  rewrite object_loop_member, scanstring_escape by assumption.
  cbn [bind skip_ws]. change (is_ws 58) with false. cbv iota.
  change (negb (58 =? 58)) with false. cbv iota.
  cbn [skip_ws]. change (is_ws 32) with true.
  change (is_ws 34) with false. cbv iota.
  rewrite scan_once_string, scanstring_escape by assumption.
  cbn [bind skip_ws]. rewrite Hd. reflexivity.
Qed.

(** [json.loads] inverts [json.dumps] on a two-member dict of strings. *)
Lemma loads_dumps_dict2 (k1 v1 k2 v2 : str) :
  Forall (fun c => is_scalar c = true) k1 ->
  Forall (fun c => is_scalar c = true) v1 ->
  Forall (fun c => is_scalar c = true) k2 ->
  Forall (fun c => is_scalar c = true) v2 ->
  loads (dumps_dict [(k1, v1); (k2, v2)])
  = Ok (JObject (dict_set k2 (JString v2) [(k1, JString v1)])).
Proof.
  intros Hk1 Hv1 Hk2 Hv2. unfold loads, dumps_dict.
  cbn [dumps_items]. change (lit "{") with [123].
  change (lit "}") with [125]. change (lit ", ") with [44; 32].
  rewrite <- !app_assoc. cbn [app].
  set (rest2 := dumps_str k2 ++ _).
  set (body := dumps_str k1 ++ _).
  assert (Hlen : exists n,
            (S (2 * List.length (123%Z :: body)) = S (S (S (S n))))%nat).
  { exists (2 * List.length (123%Z :: body) - 3)%nat.
    unfold body, dumps_str. cbn [app List.length]. lia. }
  destruct Hlen as [n ->].
  cbn [skip_ws]. change (is_ws 123) with false. cbv iota.
  unfold body at 1. unfold dumps_str at 1. cbn [app].
  rewrite scan_once_object.
  change (34 :: (escape k1 ++ [34]) ++ ?t) with (dumps_str k1 ++ t).
  rewrite (object_loop_string_member (S n) [] k1 v1 44 (32 :: rest2))
    by (assumption || reflexivity).
  cbv zeta. change (44 =? 125) with false. change (44 =? 44) with true.
  cbv iota. cbn [skip_ws]. change (is_ws 32) with true. cbv iota.
  assert (Hws : skip_ws rest2 = rest2).
  { unfold rest2, dumps_str. reflexivity. }
  rewrite Hws. unfold rest2.
  rewrite (object_loop_string_member n _ k2 v2 125 [])
    by (assumption || reflexivity).
  cbv zeta. change (125 =? 125) with true. cbv iota.
  reflexivity.
Qed.

(** *** The scanner consumes its input and never runs out of fuel *)

(** A scan result is sound for a text of length [L] when what it leaves
    unread is shorter, or when it is a JSON syntax error. *)
Definition sound {A : Type} (L : nat) (m : result (A * str)) : Prop :=
  match m with
  | Ok (_, rest) => (List.length rest < L)%nat
  | Err e => e = JSONDecodeError
  end.

Lemma sound_push (c : Z) (L : nat) (m : result (str * str)) :
  sound L m -> sound L (push c m).
Proof. destruct m as [[k rest]|e]; exact (fun H => H). Qed.

Lemma sound_weaken {A : Type} (L L' : nat) (m : result (A * str)) :
  sound L m -> (L <= L')%nat -> sound L' m.
Proof. destruct m as [[k rest]|e]; cbn; [lia | auto]. Qed.

Lemma skip_ws_length (s : str) : (List.length (skip_ws s) <= List.length s)%nat.
Proof.
  induction s as [|c s IH]; [reflexivity|].
  cbn [skip_ws]. destruct (is_ws c); cbn [List.length]; lia.
Qed.

Lemma scanstring_eq (s : str) :
  scanstring s =
  match s with
  | [] => Err JSONDecodeError
  | c :: r =>
    if c =? 0x22 then Ok ([], r)
    else if c =? 0x5C then
      match r with
      | [] => Err JSONDecodeError
      | e :: r1 =>
        if e =? 0x75 then
          match r1 with
          | h1 :: h2 :: h3 :: h4 :: r2 =>
            match hex4_val h1 h2 h3 h4 with
            | None => Err JSONDecodeError
            | Some u =>
              if is_high_surrogate u then
                match r2 with
                | b :: u' :: l1 :: l2 :: l3 :: l4 :: r3 =>
                  if (b =? 0x5C) && (u' =? 0x75) then
                    match hex4_val l1 l2 l3 l4 with
                    | None => Err JSONDecodeError
                    | Some lo =>
                      if is_low_surrogate lo
                      then push (join_surrogates u lo) (scanstring r3)
                      else push u (scanstring r2)
                    end
                  else push u (scanstring r2)
                | _ => push u (scanstring r2)
                end
              else push u (scanstring r2)
            end
          | _ => Err JSONDecodeError
          end
        else if e =? 0x22 then push 0x22 (scanstring r1)
        else if e =? 0x5C then push 0x5C (scanstring r1)
        else if e =? 0x2F then push 0x2F (scanstring r1)
        else if e =? 0x62 then push 0x08 (scanstring r1)
        else if e =? 0x66 then push 0x0C (scanstring r1)
        else if e =? 0x6E then push 0x0A (scanstring r1)
        else if e =? 0x72 then push 0x0D (scanstring r1)
        else if e =? 0x74 then push 0x09 (scanstring r1)
        else Err JSONDecodeError
      end
    else if c <=? 0x1F then Err JSONDecodeError
    else push c (scanstring r)
  end.
Proof. destruct s; reflexivity. Qed.

Ltac sound_step :=
  match goal with
  | |- sound _ (match ?x with _ => _ end) => destruct x
  end.

Lemma scanstring_sound_upto (n : nat) (s : str) :
  (List.length s < n)%nat -> sound (List.length s) (scanstring s).
Proof.
  revert s. induction n as [|n IH]; intros s Hn; [lia|].
  rewrite scanstring_eq. destruct s as [|c r]; [reflexivity|].
  cbn [List.length] in *.
  repeat sound_step.
  all: cbn [List.length] in *.
  all: try reflexivity.
  all: try (unfold sound; cbn [List.length]; lia).
  all: apply sound_push;
    match goal with
    | |- sound _ (scanstring ?t) =>
      apply (sound_weaken (List.length t)); [apply IH|];
      cbn [List.length]; lia
    end.
Qed.

Lemma scanstring_sound (s : str) : sound (List.length s) (scanstring s).
Proof. apply (scanstring_sound_upto (S (List.length s))). lia. Qed.

Lemma take_digits_length (s : str) :
  (List.length (snd (take_digits s)) <= List.length s)%nat.
Proof.
  induction s as [|c s IH]; [reflexivity|].
  cbn [take_digits]. destruct (is_digit c); [|reflexivity].
  destruct (take_digits s) as [ds rest]. cbn [snd List.length] in *. lia.
Qed.

Ltac innermost x :=
  lazymatch x with
  | match ?y with _ => _ end => innermost y
  | _ => x
  end.

Ltac number_step :=
  match goal with
  | |- sound _ (match ?x with _ => _ end) =>
    let y := innermost x in
    lazymatch y with
    | take_digits ?t =>
      let H := fresh "Hd" in
      pose proof (take_digits_length t) as H;
      destruct (take_digits t); cbn [snd] in H
    | _ => destruct y
    end; cbv beta iota zeta
  end.

Lemma match_number_sound (s : str) : sound (List.length s) (match_number s).
Proof.
  unfold match_number. cbv beta iota zeta.
  repeat number_step.
  all: unfold sound; try reflexivity; cbn [List.length] in *; try lia.
Qed.

Lemma strip_prefix_length (p s rest : str) :
  strip_prefix p s = Some rest ->
  (List.length rest + List.length p = List.length s)%nat.
Proof.
  revert s. induction p as [|a p IH]; intros s H.
  - injection H as <-. cbn. lia.
  - destruct s as [|b s]; [discriminate|]. cbn [strip_prefix] in H.
    destruct (a =? b); [|discriminate]. apply IH in H.
    cbn [List.length]. lia.
Qed.

Lemma scan_once_eq (f : nat) (s : str) :
  scan_once (S f) s =
  match s with
  | [] => Err JSONDecodeError
  | c :: r =>
    if c =? 0x22 then
      '(k, rest) <- scanstring r ;; Ok (JString k, rest)
    else if c =? 0x7B then
      match skip_ws r with
      | [] => Err JSONDecodeError
      | c' :: r' =>
        if c' =? 0x7D then Ok (JObject [], r')
        else object_loop f [] (skip_ws r)
      end
    else if c =? 0x5B then
      match skip_ws r with
      | [] => Err JSONDecodeError
      | c' :: r' =>
        if c' =? 0x5D then Ok (JArray [], r')
        else array_loop f [] (skip_ws r)
      end
    else
      let constant (word : string) (v : value) :=
        match strip_prefix (lit word) s with
        | Some rest => Ok (v, rest)
        | None => match_number s
        end in
      if c =? 0x6E then constant "null"%string JNull
      else if c =? 0x74 then constant "true"%string (JBool true)
      else if c =? 0x66 then constant "false"%string (JBool false)
      else if c =? 0x4E then constant "NaN"%string (JFloat (lit "NaN"))
      else if c =? 0x49 then constant "Infinity"%string (JFloat (lit "Infinity"))
      else if c =? 0x2D then constant "-Infinity"%string (JFloat (lit "-Infinity"))
      else match_number s
  end.
Proof. reflexivity. Qed.

Lemma object_loop_eq (f : nat) (acc : dict) (s : str) :
  object_loop (S f) acc s =
  match s with
  | [] => Err JSONDecodeError
  | q :: r =>
    if negb (q =? 0x22) then Err JSONDecodeError
    else
      '(key, s1) <- scanstring r ;;
      match skip_ws s1 with
      | [] => Err JSONDecodeError
      | colon :: s2 =>
        if negb (colon =? 0x3A) then Err JSONDecodeError
        else
          '(v, s3) <- scan_once f (skip_ws s2) ;;
          let acc' := dict_set key v acc in
          match skip_ws s3 with
          | [] => Err JSONDecodeError
          | d :: s4 =>
            if d =? 0x7D then Ok (JObject acc', s4)
            else if d =? 0x2C then object_loop f acc' (skip_ws s4)
            else Err JSONDecodeError
          end
      end
  end.
Proof. reflexivity. Qed.

Lemma array_loop_eq (f : nat) (acc : list value) (s : str) :
  array_loop (S f) acc s =
  '(v, s1) <- scan_once f s ;;
  let acc' := acc ++ [v] in
  match skip_ws s1 with
  | [] => Err JSONDecodeError
  | d :: s2 =>
    if d =? 0x5D then Ok (JArray acc', s2)
    else if d =? 0x2C then array_loop f acc' (skip_ws s2)
    else Err JSONDecodeError
  end.
Proof. reflexivity. Qed.

Ltac ws_facts :=
  repeat match goal with
  | |- context [skip_ws ?t] =>
    lazymatch goal with
    | _ : (List.length (skip_ws t) <= List.length t)%nat |- _ => fail
    | _ => pose proof (skip_ws_length t)
    end
  end.

Ltac solve_lengths :=
  ws_facts; unfold sound; cbn [List.length] in *; lia.

(** Case split on what follows the white space of [t]. *)
Ltac after_ws t :=
  let H := fresh "Hw" in
  pose proof (skip_ws_length t) as H;
  destruct (skip_ws t) as [|? ?]; [reflexivity | cbn [List.length] in H].

(** Case split on the outcome of a sub-scan [m] known to be sound. *)
Ltac sub_scan m H :=
  destruct m as [[? ?]|?];
  [cbn [sound] in H | cbn [sound] in H; subst; reflexivity];
  cbn [bind]; cbv beta iota zeta.

Ltac constant_case c r :=
  match goal with
  | |- sound _ (match strip_prefix (lit ?w) _ with _ => _ end) =>
    let E := fresh "E" in
    destruct (strip_prefix (lit w) (c :: r)) eqn:E;
    [ apply strip_prefix_length in E;
      let n := eval vm_compute in (List.length (lit w)) in
      change (List.length (lit w)) with n in E;
      solve_lengths
    | exact (match_number_sound (c :: r)) ]
  end.

Lemma scanner_sound (f : nat) :
  (forall s, (2 * List.length s + 1 <= f)%nat ->
             sound (List.length s) (scan_once f s)) /\
  (forall acc s, (2 * List.length s + 2 <= f)%nat ->
                 sound (List.length s) (object_loop f acc s)) /\
  (forall acc s, (2 * List.length s + 2 <= f)%nat ->
                 sound (List.length s) (array_loop f acc s)).
Proof.
  induction f as [|f (IHs & IHo & IHa)].
  { repeat split; intros; lia. }
  split; [|split].
  - intros s Hf. rewrite scan_once_eq. destruct s as [|c r]; [reflexivity|].
    cbv zeta. cbn [List.length] in Hf.
    destruct (c =? 34).
    { pose proof (scanstring_sound r) as Hs.
      sub_scan (scanstring r) Hs. solve_lengths. }
    destruct (c =? 123).
    { after_ws r. destruct (_ =? 125); [solve_lengths|].
      match goal with
      | |- sound _ (object_loop _ _ ?t) =>
        apply (sound_weaken (List.length t)); [apply IHo|]; solve_lengths
      end. }
    destruct (c =? 91).
    { after_ws r. destruct (_ =? 93); [solve_lengths|].
      match goal with
      | |- sound _ (array_loop _ _ ?t) =>
        apply (sound_weaken (List.length t)); [apply IHa|]; solve_lengths
      end. }
    repeat (destruct (c =? _); [constant_case c r|]).
    exact (match_number_sound (c :: r)).
  - intros acc s Hf. rewrite object_loop_eq.
    destruct s as [|q r]; [reflexivity|]. cbn [List.length] in Hf.
    destruct (negb _); [reflexivity|].
    pose proof (scanstring_sound r) as Hs. sub_scan (scanstring r) Hs.
    match goal with |- context [skip_ws ?t] => after_ws t end.
    destruct (negb _); [reflexivity|].
    match goal with
    | |- sound _ (bind (scan_once f (skip_ws ?t)) _) =>
      assert (Hv : sound (List.length (skip_ws t)) (scan_once f (skip_ws t)))
        by (apply IHs; solve_lengths);
      pose proof (skip_ws_length t);
      sub_scan (scan_once f (skip_ws t)) Hv
    end.
    match goal with |- context [skip_ws ?t] => after_ws t end.
    destruct (_ =? 125); [solve_lengths|].
    destruct (_ =? 44); [|reflexivity].
    match goal with
    | |- sound _ (object_loop _ _ ?t) =>
      apply (sound_weaken (List.length t)); [apply IHo|]; solve_lengths
    end.
  - intros acc s Hf. rewrite array_loop_eq.
    assert (Hv : sound (List.length s) (scan_once f s)) by (apply IHs; lia).
    sub_scan (scan_once f s) Hv.
    match goal with |- context [skip_ws ?t] => after_ws t end.
    destruct (_ =? 93); [solve_lengths|].
    destruct (_ =? 44); [|reflexivity].
    match goal with
    | |- sound _ (array_loop _ _ ?t) =>
      apply (sound_weaken (List.length t)); [apply IHa|]; solve_lengths
    end.
Qed.

(** [json.loads] never runs out of fuel: its only exception is
    [JSONDecodeError]. *)
Lemma loads_error (s : str) (e : exn) : loads s = Err e -> e = JSONDecodeError.
Proof.
  unfold loads.
  assert (H : sound (List.length (skip_ws s))
                (scan_once (S (2 * List.length s)) (skip_ws s))).
  { apply scanner_sound. pose proof (skip_ws_length s). lia. }
  destruct (scan_once _ (skip_ws s)) as [[v rest]|e']; cbn [sound bind] in *.
  - destruct (skip_ws rest); [discriminate|]. intros E. injection E as <-.
    reflexivity.
  - intros E. injection E as <-. exact H.
Qed.

End JsonFacts.

(** ** The envelope on the wire *)

Module EnvelopeFacts.
Import Py Json Envelope Obj PyFacts JsonFacts.

Definition lower_ascii_str (s : str) : str := List.map ascii_lower s.

Definition envelope (s m : str) : value :=
  JObject [(lit "sender", JString s); (lit "message", JString m)].

Lemma Message_json_shape (msg : Message) :
  exists mid, Message_json msg = 0x7B :: mid ++ [0x7D].
Proof.
  unfold Message_json, dumps_dict. change (lit "{") with [123].
  change (lit "}") with [125]. cbn [app]. eexists. reflexivity.
Qed.

Lemma Message_json_ascii (msg : Message) :
  scalar_str (sender msg) -> scalar_str (message msg) ->
  Forall is_ascii (Message_json msg).
Proof.
  intros Hs Hm. unfold Message_json, dumps_dict. cbn [dumps_items].
  repeat (apply Forall_app; split);
    try (apply dumps_str_ascii; try assumption;
         apply Forall_forall; intros c Hc; cbn in Hc;
         repeat (destruct Hc as [<-|Hc]; [reflexivity|]); contradiction);
    apply Forall_forall; intros c Hc; cbn in Hc;
    repeat (destruct Hc as [<-|Hc]; [unfold is_ascii; lia|]); contradiction.
Qed.

Lemma Message_json_lower (msg : Message) :
  List.map ascii_lower (Message_json msg)
  = Message_json {| sender := lower_ascii_str (sender msg);
                    message := lower_ascii_str (message msg) |}.
Proof.
  unfold Message_json, dumps_dict. cbn [dumps_items sender message].
  rewrite !map_app, !dumps_str_lower. reflexivity.
Qed.

(** The codec itself is verbatim: parsing the serialized envelope gives
    back both fields unchanged. *)
Lemma loads_Message_json (msg : Message) :
  scalar_str (sender msg) -> scalar_str (message msg) ->
  loads (Message_json msg) = Ok (envelope (sender msg) (message msg)).
Proof.
  intros Hs Hm. unfold Message_json.
  rewrite loads_dumps_dict2; try assumption; try reflexivity;
    apply Forall_forall; intros c Hc; cbn in Hc;
    repeat (destruct Hc as [<-|Hc]; [reflexivity|]); contradiction.
Qed.

(** What the outbound formatter puts on the stream. *)
Lemma write_event (id message : str) (stream : list bytes) :
  scalar_str id -> scalar_str message ->
  Writer.write id message stream
  = Ok (stream ++ [Message_json {| sender := id; message := message |}]).
Proof.
  intros Hi Hm. unfold Writer.write, Writer._format_message. cbn [Message_new bind].
  rewrite utf8_encode_ascii; [reflexivity|].
  apply Message_json_ascii; assumption.
Qed.

(** What the inbound processor decodes from a serialized envelope. *)
Lemma decode_batch_Message_json (U : unicode_db) (msg : Message) :
  scalar_str (sender msg) -> scalar_str (message msg) ->
  Reader.decode_batch U [Message_json msg]
  = Ok (envelope (lower_ascii_str (sender msg)) (lower_ascii_str (message msg)),
        {| sender := lower_ascii_str (sender msg);
           message := lower_ascii_str (message msg) |}).
Proof.
  intros Hs Hm. unfold Reader.decode_batch. cbn [mapM].
  rewrite utf8_decode_ascii by (apply Message_json_ascii; assumption).
  cbn [bind List.concat]. rewrite app_nil_r.
  destruct (Message_json_shape msg) as [mid Hshape].
  assert (Hstrip : strip (Message_json msg) = Message_json msg).
  { rewrite Hshape. apply strip_delimited; reflexivity. }
  rewrite Hstrip.
  rewrite lower_ascii by (apply Message_json_ascii; assumption).
  rewrite Message_json_lower.
  rewrite loads_Message_json by (apply map_lower_scalar; assumption).
  reflexivity.
Qed.

End EnvelopeFacts.

(** ** Sample environments, used to run the definitions on concrete input *)

Module Sample.
Import Py.

(** A character database that leaves every code point outside ASCII
    unchanged and knows no cased letter there. *)
Definition plain_db : unicode_db :=
  {| to_lower_full := fun c => if c =? 0x3A3 then [0x3C3] else [c];
     is_cased := fun c =>
       ((0x41 <=? c) && (c <=? 0x5A)) || ((0x61 <=? c) && (c <=? 0x7A));
     is_case_ignorable := fun c => (c =? 0x27) || (c =? 0x2E) |}.

(** A joke provider that cannot be reached. *)
Definition provider_down : str -> result str := fun _ => Err RequestException.

(** A joke provider that answers with one joke. *)
Definition provider_up : str -> result str := fun _ =>
  Ok (lit_q "[{'setup': 'Why?', 'punchline': 'Because.'}]").

End Sample.

(** ** The inbound processor *)

Module ReaderSpec.
Import Py Json Envelope Obj PyFacts JsonFacts EnvelopeFacts.

Section Processor.
Variable U : unicode_db.
Variable requests_get : str -> result str.
Variable id : str.

(** What a successful [decode_batch] went through. *)
Lemma decode_batch_inv (buff : list bytes) (j : value) (incoming : Message) :
  Reader.decode_batch U buff = Ok (j, incoming) ->
  exists decoded,
    mapM utf8_decode buff = Ok decoded /\
    loads (lower U (strip (List.concat decoded))) = Ok j /\
    getitem j (lit "sender") = Ok (JString (sender incoming)) /\
    getitem j (lit "message") = Ok (JString (message incoming)).
Proof.
  unfold Reader.decode_batch. intros H.
  destruct (mapM utf8_decode buff) as [decoded|]; [|discriminate].
  cbn [bind] in H. exists decoded.
  destruct (loads _) as [j'|] eqn:Ej; [|discriminate]. cbn [bind] in H.
  destruct (getitem j' (lit "sender")) as [s|] eqn:Es; [|discriminate].
  cbn [bind] in H.
  destruct (getitem j' (lit "message")) as [m|] eqn:Em; [|discriminate].
  cbn [bind] in H.
  destruct s; try discriminate. destruct m; try discriminate.
  cbn in H. injection H as <- <-. cbn [sender message].
  repeat split; assumption || reflexivity.
Qed.

(** [_process_message] after a successful decode, as one case split. *)
Lemma process_decoded (buff : list bytes) (j : value) (incoming : Message) :
  Reader.decode_batch U buff = Ok (j, incoming) ->
  Reader._process_message U requests_get id buff =
  if str_eqb (sender incoming) id then Ok None
  else if str_eqb (message incoming) (lit "greet") then
    Ok (Some (Message_dict
      {| sender := sender incoming;
         message := sender incoming ++ lit " says hi!" |}))
  else if str_eqb (message incoming) (lit "joke") then
    joke <- Reader._tell_joke requests_get ;;
    Ok (Some (Message_dict
      {| sender := sender incoming; message := joke |}))
  else Ok (Some (Message_dict incoming)).
Proof.
  intros H. destruct (decode_batch_inv _ _ _ H) as (d & _ & _ & _ & Hm).
  unfold Reader._process_message. rewrite H. cbn [bind].
  destruct (str_eqb (sender incoming) id); [reflexivity|].
  rewrite Hm. cbn [bind eq_str].
  destruct (str_eqb (message incoming) (lit "greet")); [reflexivity|].
  destruct (str_eqb (message incoming) (lit "joke")).
  - destruct (Reader._tell_joke requests_get); reflexivity.
  - destruct incoming; reflexivity.
Qed.
End Processor.

End ReaderSpec.

(** ** The envelope codec end to end *)

Module CodecSpec.
Import Py Json Envelope Obj PyFacts JsonFacts EnvelopeFacts.

(** No upper-case ASCII letter [A-Z] occurs in the string. *)
Definition no_ascii_upper (s : str) : Prop :=
  Forall (fun c => c < 0x41 \/ 0x5A < c) s.

Lemma no_ascii_upper_check (s : str) :
  List.forallb (fun c => negb ((0x41 <=? c) && (c <=? 0x5A))) s = true ->
  no_ascii_upper s.
Proof.
  intros H. apply Forall_forall. intros c Hc.
  rewrite forallb_forall in H. specialize (H c Hc).
  apply negb_true_iff, andb_false_iff in H.
  destruct H as [H|H]; apply Z.leb_gt in H; lia.
Qed.

Lemma lower_ascii_str_id (s : str) : no_ascii_upper s -> lower_ascii_str s = s.
Proof.
  unfold lower_ascii_str. induction 1 as [|c s Hc Hs IH]; [reflexivity|].
  cbn [List.map]. rewrite IH. f_equal. unfold ascii_lower.
  replace ((65 <=? c) && (c <=? 90)) with false; [reflexivity|].
  symmetry. apply andb_false_iff.
  destruct Hc; [left | right]; apply Z.leb_gt; lia.
Qed.

(** What the reader decodes from what the writer publishes: both fields
    with their ASCII letters lower-cased. *)
Lemma decode_of_write (U : unicode_db) (sender message : str) :
  scalar_str sender -> scalar_str message ->
  exists event,
    Writer.write sender message [] = Ok [event] /\
    Reader.decode_batch U [event]
    = Ok (envelope (lower_ascii_str sender) (lower_ascii_str message),
          {| Envelope.sender := lower_ascii_str sender;
             Envelope.message := lower_ascii_str message |}).
Proof.
  intros Hs Hm.
  exists (Message_json {| Envelope.sender := sender;
                          Envelope.message := message |}).
  split.
  - apply (write_event sender message []); assumption.
  - apply (decode_batch_Message_json U
             {| Envelope.sender := sender; Envelope.message := message |});
      assumption.
Qed.

(** C1, as the code has it: for all sender and message strings of Unicode
    scalar values that contain no upper-case ASCII letter, decoding the
    single-fragment batch the outbound formatter produced yields a message
    whose two fields equal the originals. *)
Theorem roundtrip_without_uppercase (U : unicode_db) (sender message : str) :
  scalar_str sender -> scalar_str message ->
  no_ascii_upper sender -> no_ascii_upper message ->
  exists event,
    Writer.write sender message [] = Ok [event] /\
    exists jsonify,
      Reader.decode_batch U [event]
      = Ok (jsonify,
            {| Envelope.sender := sender; Envelope.message := message |}).
Proof.
  intros Hs Hm Hus Hum.
  destruct (decode_of_write U sender message Hs Hm) as (event & Hw & Hd).
  exists event. split; [exact Hw|].
  rewrite !lower_ascii_str_id in Hd by assumption.
  eexists. exact Hd.
Qed.

Lemma roundtrip_without_uppercase_witness :
  exists event,
    Writer.write (lit "alex") (lit "hello there") [] = Ok [event] /\
    exists jsonify,
      Reader.decode_batch Sample.plain_db [event]
      = Ok (jsonify,
            {| Envelope.sender := lit "alex";
               Envelope.message := lit "hello there" |}).
Proof.
  apply (roundtrip_without_uppercase Sample.plain_db
           (lit "alex") (lit "hello there"));
    first [apply scalar_str_check | apply no_ascii_upper_check];
    reflexivity.
Defined.

(** C1 as stated fails: the sender [Alex] and the message [Hello] are both
    non-empty, and the reader decodes [alex] and [hello] from the event the
    writer publishes for them, whatever the character database. *)
Lemma roundtrip_loses_uppercase :
  lit "Alex" <> [] /\ lit "Hello" <> [] /\
  exists event,
    Writer.write (lit "Alex") (lit "Hello") [] = Ok [event] /\
    forall U : unicode_db,
      exists jsonify incoming,
        Reader.decode_batch U [event] = Ok (jsonify, incoming) /\
        Envelope.sender incoming = lit "alex" /\
        Envelope.message incoming = lit "hello" /\
        incoming <> {| Envelope.sender := lit "Alex";
                       Envelope.message := lit "Hello" |}.
Proof.
  split; [discriminate|]. split; [discriminate|].
  eexists. split; [vm_compute; reflexivity|].
  intros U. eexists. eexists. split; [vm_compute; reflexivity|].
  repeat split; try reflexivity. discriminate.
Qed.

(** Why the strings are taken among the Unicode scalar values: a [str]
    holding the two surrogate code points U+D83D U+DE00 is serialized as
    two escapes, which [json.loads] joins into the one code point U+1F600. *)
Example surrogate_pair_is_joined :
  forall U : unicode_db,
    Reader.decode_batch U
      [Message_json {| Envelope.sender := [0xD83D; 0xDE00];
                       Envelope.message := lit "hi" |}]
    = Ok (envelope [0x1F600] (lit "hi"),
          {| Envelope.sender := [0x1F600]; Envelope.message := lit "hi" |}).
Proof. intros U. vm_compute. reflexivity. Qed.

End CodecSpec.

(** ** The inbound processor, claim by claim *)

Module ProcessorSpec.
Import Py Json Envelope Obj PyFacts JsonFacts EnvelopeFacts ReaderSpec.

(** C2: a batch whose decoded sender equals the local id produces no
    response, whatever its message and whatever the joke provider does,
    and this is a normal return ([None]), not an exception: the processor
    returns it, and so does [MyReader.read], whose handler is not entered. *)
Theorem self_echo_suppressed (U : unicode_db)
    (requests_get : str -> result str) (id : str) (buff : list bytes)
    (jsonify : value) (incoming : Message) :
  Reader.decode_batch U buff = Ok (jsonify, incoming) ->
  sender incoming = id ->
  Reader._process_message U requests_get id buff = Ok None /\
  forall p : Reader.p_reader,
    Reader.read U requests_get id (Ok buff) p
    = (Ok None, Reader.release_segment p).
Proof.
  intros Hd Hs.
  assert (H : Reader._process_message U requests_get id buff = Ok None).
  { rewrite (process_decoded U requests_get id _ _ _ Hd).
    rewrite Hs, str_eqb_refl. reflexivity. }
  split; [exact H|]. intros p. unfold Reader.read.
  destruct (0 <? List.length buff)%nat; [rewrite H|]; reflexivity.
Qed.

Lemma self_echo_suppressed_witness :
  Reader._process_message Sample.plain_db Sample.provider_up (lit "tim")
    [lit_q "{'sender': 'tim', 'message': 'joke'}"] = Ok None /\
  forall p : Reader.p_reader,
    Reader.read Sample.plain_db Sample.provider_up (lit "tim")
      (Ok [lit_q "{'sender': 'tim', 'message': 'joke'}"]) p
    = (Ok None, Reader.release_segment p).
Proof.
  apply (self_echo_suppressed Sample.plain_db Sample.provider_up (lit "tim")
           [lit_q "{'sender': 'tim', 'message': 'joke'}"]
           (envelope (lit "tim") (lit "joke"))
           {| sender := lit "tim"; message := lit "joke" |});
    reflexivity.
Defined.

(** C3: every response the processor produces carries the sender of the
    incoming message, and that sender is not the local id. *)
Theorem response_labelled_by_incoming_sender (U : unicode_db)
    (requests_get : str -> result str) (id : str) (buff : list bytes)
    (resp : dict) :
  Reader._process_message U requests_get id buff = Ok (Some resp) ->
  exists jsonify incoming text,
    Reader.decode_batch U buff = Ok (jsonify, incoming) /\
    resp = Message_dict {| sender := sender incoming; message := text |} /\
    dict_get (lit "sender") resp = Some (JString (sender incoming)) /\
    sender incoming <> id.
Proof.
  intros H.
  destruct (Reader.decode_batch U buff) as [[jsonify incoming]|] eqn:Hd.
  2:{ unfold Reader._process_message in H. rewrite Hd in H. discriminate. }
  rewrite (process_decoded U requests_get id _ _ _ Hd) in H.
  exists jsonify, incoming.
  destruct (str_eqb (sender incoming) id) eqn:Eid; [discriminate|].
  apply str_eqb_neq in Eid.
  destruct (str_eqb (message incoming) (lit "greet")).
  { injection H as <-. eexists. repeat split; auto. }
  destruct (str_eqb (message incoming) (lit "joke")).
  { destruct (Reader._tell_joke requests_get) as [joke|]; [|discriminate].
    injection H as <-. eexists. repeat split; auto. }
  injection H as <-. exists (message incoming).
  destruct incoming; repeat split; auto.
Qed.

Lemma response_labelled_by_incoming_sender_witness :
  exists jsonify incoming text,
    Reader.decode_batch Sample.plain_db
      [lit_q "{'sender': 'alex', 'message': 'joke'}"]
    = Ok (jsonify, incoming) /\
    Message_dict {| sender := lit "alex";
                    message := lit "Why?" ++ [0x0A] ++ lit "Because." |}
    = Message_dict {| sender := sender incoming; message := text |} /\
    dict_get (lit "sender")
      (Message_dict {| sender := lit "alex";
                       message := lit "Why?" ++ [0x0A] ++ lit "Because." |})
    = Some (JString (sender incoming)) /\
    sender incoming <> lit "tim".
Proof.
  apply (response_labelled_by_incoming_sender Sample.plain_db
           Sample.provider_up (lit "tim")
           [lit_q "{'sender': 'alex', 'message': 'joke'}"]).
  reflexivity.
Defined.

(** C4: the batch [{"sender":"alex","message":"greet"}] processed with
    local id [tim] yields exactly [{sender: alex, message: alex says hi!}];
    and in general a decoded message that is exactly [greet], from a sender
    other than the local id, is answered with [<sender> says hi!]. *)
Theorem greet_resolution :
  (forall (U : unicode_db) (requests_get : str -> result str),
     Reader._process_message U requests_get (lit "tim")
       [lit_q "{'sender':'alex','message':'greet'}"]
     = Ok (Some (Message_dict {| sender := lit "alex";
                                 message := lit "alex says hi!" |}))) /\
  (forall (U : unicode_db) (requests_get : str -> result str) (id : str)
          (buff : list bytes) (jsonify : value) (incoming : Message),
     Reader.decode_batch U buff = Ok (jsonify, incoming) ->
     sender incoming <> id ->
     message incoming = lit "greet" ->
     Reader._process_message U requests_get id buff
     = Ok (Some (Message_dict
                   {| sender := sender incoming;
                      message := sender incoming ++ lit " says hi!" |}))).
Proof.
  split.
  - intros U requests_get. vm_compute. reflexivity.
  - intros U requests_get id buff jsonify incoming Hd Hs Hm.
    rewrite (process_decoded U requests_get id _ _ _ Hd).
    apply str_eqb_neq in Hs. rewrite Hs, Hm. reflexivity.
Qed.

Lemma greet_resolution_witness :
  Reader._process_message Sample.plain_db Sample.provider_down (lit "bob")
    [lit_q " {'sender': 'Eve', "; lit_q "'message': 'GREET'} "]
  = Ok (Some (Message_dict {| sender := lit "eve";
                              message := lit "eve says hi!" |})).
Proof.
  apply (proj2 greet_resolution Sample.plain_db Sample.provider_down
           (lit "bob")
           [lit_q " {'sender': 'Eve', "; lit_q "'message': 'GREET'} "]
           (envelope (lit "eve") (lit "greet"))
           {| sender := lit "eve"; message := lit "greet" |}).
  - reflexivity.
  - discriminate.
  - reflexivity.
Defined.



(** A batch is malformed when a fragment is not UTF-8, when the
    normalized text is not valid JSON, or when the parsed JSON object lacks
    the [sender] key or the [message] key. *)
Inductive malformed (U : unicode_db) (buff : list bytes) : Prop :=
| not_utf8 (e : exn) :
    mapM utf8_decode buff = Err e -> malformed U buff
| not_json (decoded : list str) (e : exn) :
    mapM utf8_decode buff = Ok decoded ->
    loads (lower U (strip (List.concat decoded))) = Err e ->
    malformed U buff
| missing_key (decoded : list str) (d : dict) :
    mapM utf8_decode buff = Ok decoded ->
    loads (lower U (strip (List.concat decoded))) = Ok (JObject d) ->
    dict_get (lit "sender") d = None \/ dict_get (lit "message") d = None ->
    malformed U buff.

(** The exceptions that report a malformed envelope. *)
Definition decode_error (e : exn) : Prop :=
  e = UnicodeDecodeError \/ e = JSONDecodeError \/ e = KeyError.

(** C6: on a malformed batch the processor raises a decode error; it
    returns neither a response nor [None]. *)
Theorem malformed_input_raises (U : unicode_db)
    (requests_get : str -> result str) (id : str) (buff : list bytes) :
  malformed U buff ->
  exists e,
    Reader._process_message U requests_get id buff = Err e /\
    decode_error e.
Proof.
  unfold Reader._process_message, Reader.decode_batch, decode_error.
  intros [e H | decoded e H1 H2 | decoded d H1 H2 H3].
  - rewrite H. exists e. split; [reflexivity|].
    left. apply (mapM_utf8_decode_error _ _ H).
  - rewrite H1. cbn [bind]. rewrite H2. exists e. split; [reflexivity|].
    right. left. apply (loads_error _ _ H2).
  - rewrite H1. cbn [bind]. rewrite H2. cbn [bind getitem].
    exists KeyError. split; [|auto].
    destruct H3 as [H3 | H3].
    + rewrite H3. reflexivity.
    + rewrite H3. destruct (dict_get (lit "sender") d); reflexivity.
Qed.

Lemma malformed_input_raises_witness :
  exists e,
    Reader._process_message Sample.plain_db Sample.provider_up (lit "tim")
      [lit_q "{'sender': 'alex', 'text': 'hi'}"] = Err e /\
    decode_error e.
Proof.
  apply (malformed_input_raises Sample.plain_db Sample.provider_up
           (lit "tim") [lit_q "{'sender': 'alex', 'text': 'hi'}"]).
  apply (missing_key Sample.plain_db _
           [lit_q "{'sender': 'alex', 'text': 'hi'}"]
           [(lit "sender", JString (lit "alex"));
            (lit "text", JString (lit "hi"))]).
  - reflexivity.
  - reflexivity.
  - right. reflexivity.
Defined.

(** Validity is judged on the normalized text: upper-case keys and an
    upper-case [TRUE], which no JSON parser accepts as they stand, are
    lower-cased before parsing, and the batch is answered. *)
Example uppercase_text_is_accepted :
  forall (U : unicode_db) (requests_get : str -> result str),
    Reader._process_message U requests_get (lit "tim")
      [lit_q "{'SENDER': 'Alex', 'MESSAGE': 'Hi', 'urgent': TRUE}"]
    = Ok (Some (Message_dict {| sender := lit "alex"; message := lit "hi" |})).
Proof. intros U requests_get. vm_compute. reflexivity. Qed.

(** C7: for a batch that resolves the [joke] command, an exception raised
    by the call to the joke provider is raised by the processor; there is
    no fallback response. *)
Theorem joke_failure_propagates (U : unicode_db)
    (requests_get : str -> result str) (id : str) (buff : list bytes)
    (jsonify : value) (incoming : Message) (e : exn) :
  Reader.decode_batch U buff = Ok (jsonify, incoming) ->
  sender incoming <> id ->
  message incoming = lit "joke" ->
  requests_get Reader.joke_url = Err e ->
  Reader._process_message U requests_get id buff = Err e.
Proof.
  intros Hd Hs Hm He.
  rewrite (process_decoded U requests_get id _ _ _ Hd).
  apply str_eqb_neq in Hs. rewrite Hs, Hm.
  change (str_eqb (lit "joke") (lit "greet")) with false.
  change (str_eqb (lit "joke") (lit "joke")) with true. cbv iota.
  unfold Reader._tell_joke. rewrite He. reflexivity.
Qed.

Lemma joke_failure_propagates_witness :
  Reader._process_message Sample.plain_db Sample.provider_down (lit "tim")
    [lit_q "{'sender': 'alex', 'message': 'joke'}"] = Err RequestException.
Proof.
  apply (joke_failure_propagates Sample.plain_db Sample.provider_down
           (lit "tim") [lit_q "{'sender': 'alex', 'message': 'joke'}"]
           (envelope (lit "alex") (lit "joke"))
           {| sender := lit "alex"; message := lit "joke" |}).
  - reflexivity.
  - discriminate.
  - reflexivity.
  - reflexivity.
Defined.

(** Any other failure while fetching the joke (a body that is not JSON, an
    empty list, a missing field) is raised as well: a [joke] batch is
    answered only with what [_tell_joke] returned. *)
Lemma joke_response_is_provided (U : unicode_db)
    (requests_get : str -> result str) (id : str) (buff : list bytes)
    (jsonify : value) (incoming : Message) :
  Reader.decode_batch U buff = Ok (jsonify, incoming) ->
  sender incoming <> id ->
  message incoming = lit "joke" ->
  Reader._process_message U requests_get id buff =
  joke <- Reader._tell_joke requests_get ;;
  Ok (Some (Message_dict {| sender := sender incoming; message := joke |})).
Proof.
  intros Hd Hs Hm.
  rewrite (process_decoded U requests_get id _ _ _ Hd).
  apply str_eqb_neq in Hs. rewrite Hs, Hm. reflexivity.
Qed.

End ProcessorSpec.

(** ** The read loop *)

Module ChatterSpec.
Import Py Json Envelope Obj PyFacts.

Definition fresh : Chatter.MyChatter :=
  {| Chatter.running := true;
     Chatter.reader := {| Reader.released := 0; Reader.offline := 0 |} |}.

(** [logging] is not a name of [reader.py]. *)
Lemma logging_unbound :
  Reader.load_global Reader.module_globals "logging"
  = Err (NameError "logging").
Proof. reflexivity. Qed.

(** Whatever is raised inside the [try] of [MyReader.read], the handler
    itself raises [NameError], and that is what the caller sees. *)
Lemma read_handler_raises (U : unicode_db) (requests_get : str -> result str)
    (id : str) (slice : result (list bytes)) (p : Reader.p_reader) (e : exn) :
  slice = Err e \/
  (exists buff, slice = Ok buff /\ buff <> [] /\
                Reader._process_message U requests_get id buff = Err e) ->
  fst (Reader.read U requests_get id slice p) = Err (NameError "logging").
Proof.
  intros [-> | (buff & -> & Hne & Hp)]; unfold Reader.read.
  - reflexivity.
  - destruct buff as [|b buff]; [contradiction|].
    cbn [List.length Nat.ltb Nat.leb]. rewrite Hp. reflexivity.
Qed.

(** [MyReader.read] never takes the reader offline. *)
Lemma read_keeps_online (U : unicode_db) (requests_get : str -> result str)
    (id : str) (slice : result (list bytes)) (p : Reader.p_reader) :
  Reader.offline (snd (Reader.read U requests_get id slice p))
  = Reader.offline p.
Proof.
  unfold Reader.read. destruct slice as [buff|e]; [|reflexivity].
  destruct (0 <? List.length buff)%nat.
  - destruct (Reader._process_message U requests_get id buff); reflexivity.
  - reflexivity.
Qed.

(** C8, at a failing input: a batch that is not JSON arrives while the
    loop is running.  The error is caught inside [MyReader.read], but the
    handler raises [NameError] (the module never imports [logging]); the
    read loop ends with that exception, reads no further batch and never
    takes the reader offline. *)
Theorem read_error_is_fatal :
  forall (U : unicode_db) (requests_get : str -> result str),
    Chatter.read U requests_get (lit "tim")
      [ {| Chatter.slice := Ok [lit "not json"];
           Chatter.sigint := Chatter.NoSignal |};
        {| Chatter.slice := Ok [lit_q "{'sender': 'alex', 'message': 'hi'}"];
           Chatter.sigint := Chatter.NoSignal |} ]
      fresh
    = ([Chatter.EvRead], Chatter.Raised (NameError "logging"),
       {| Chatter.running := true;
          Chatter.reader := {| Reader.released := 1; Reader.offline := 0 |} |}).
Proof. intros U requests_get. vm_compute. reflexivity. Qed.

(** The same happens for a broker-level error and for a provider error. *)
Lemma read_error_is_fatal_broker_provider :
  forall U : unicode_db,
    snd (fst (Chatter.read U Sample.provider_up (lit "tim")
                [ {| Chatter.slice := Err BrokerError;
                     Chatter.sigint := Chatter.NoSignal |} ] fresh))
    = Chatter.Raised (NameError "logging") /\
    snd (fst (Chatter.read U Sample.provider_down (lit "tim")
                [ {| Chatter.slice :=
                       Ok [lit_q "{'sender': 'alex', 'message': 'joke'}"];
                     Chatter.sigint := Chatter.NoSignal |} ] fresh))
    = Chatter.Raised (NameError "logging").
Proof. intros U. split; vm_compute; reflexivity. Qed.

(** C9, at a failing input: SIGINT arrives while a read is pending and the
    batch that read returns is not JSON.  The loop does end after that one
    read, but with [NameError], and [reader_offline] is never called. *)
Theorem shutdown_skips_release :
  forall (U : unicode_db) (requests_get : str -> result str),
    Chatter.read U requests_get (lit "tim")
      [ {| Chatter.slice := Ok [lit "not json"];
           Chatter.sigint := Chatter.BeforeReadReturns |} ]
      fresh
    = ([Chatter.EvStop; Chatter.EvRead], Chatter.Raised (NameError "logging"),
       {| Chatter.running := false;
          Chatter.reader := {| Reader.released := 1; Reader.offline := 0 |} |}).
Proof. intros U requests_get. vm_compute. reflexivity. Qed.

(** What does hold of the loop. *)

Lemma read_stopped (U : unicode_db) (requests_get : str -> result str)
    (id : str) (cycles : list Chatter.cycle) (ch : Chatter.MyChatter) :
  Chatter.running ch = false ->
  Chatter.read U requests_get id cycles ch
  = ([Chatter.EvOffline], Chatter.Finished,
     Chatter.set_reader ch (Reader.close (Chatter.reader ch))).
Proof. intros H. destruct cycles; cbn [Chatter.read]; rewrite H; reflexivity. Qed.

Definition releases (o : Chatter.outcome) : nat :=
  match o with
  | Chatter.Finished => 1
  | _ => 0
  end.

(** X9: whatever the batches and whenever SIGINT arrives, the read loop
    takes the reader offline exactly once when it finishes, and not at all
    when it ends with an exception or is still waiting for a batch. *)
Lemma offline_count (U : unicode_db) (requests_get : str -> result str)
    (id : str) (cycles : list Chatter.cycle) (ch : Chatter.MyChatter) :
  Reader.offline (Chatter.reader (snd (Chatter.read U requests_get id cycles ch)))
  = (Reader.offline (Chatter.reader ch)
     + releases (snd (fst (Chatter.read U requests_get id cycles ch))))%nat.
Proof.
  revert ch. induction cycles as [|c rest IH]; intros ch.
  - cbn [Chatter.read]. destruct (Chatter.running ch); cbn; lia.
  - destruct (Chatter.running ch) eqn:Hr.
    2:{ rewrite read_stopped by assumption. cbn. lia. }
    cbn [Chatter.read]. rewrite Hr.
    destruct (Chatter.on_signal (Chatter.sigint c) Chatter.BeforeReadReturns ch)
      as [ev1 ch1] eqn:E1.
    assert (H1 : Chatter.reader ch1 = Chatter.reader ch).
    { unfold Chatter.on_signal in E1.
      destruct (Chatter.sigint c); injection E1 as <- <-; reflexivity. }
    pose proof (read_keeps_online U requests_get id (Chatter.slice c)
                  (Chatter.reader ch1)) as K.
    destruct (Reader.read U requests_get id (Chatter.slice c)
                (Chatter.reader ch1)) as [r p'].
    cbn [snd] in K. rewrite H1 in K.
    destruct r as [msg|e]; [|cbn; lia].
    match goal with
    | |- context [match ?sh with Ok _ => _ | Err _ => _ end] =>
      destruct sh as [prints|e]; [|cbn; lia]
    end.
    destruct (Chatter.on_signal (Chatter.sigint c) Chatter.AfterReadReturns
                (Chatter.set_reader ch1 p')) as [ev2 ch3] eqn:E3.
    assert (H3 : Chatter.reader ch3 = p').
    { unfold Chatter.on_signal in E3.
      destruct (Chatter.sigint c); injection E3 as <- <-; reflexivity. }
    specialize (IH ch3).
    destruct (Chatter.read U requests_get id rest ch3) as [[evs o] ch'].
    cbn [fst snd] in *. rewrite IH, H3, K. reflexivity.
Qed.

(** X10: once SIGINT has arrived during a pass, the read of that pass is
    the last one: the batches still to come are never asked for. *)
Lemma stop_ends_loop (U : unicode_db) (requests_get : str -> result str)
    (id : str) (c : Chatter.cycle) (rest : list Chatter.cycle)
    (ch : Chatter.MyChatter) :
  Chatter.sigint c <> Chatter.NoSignal ->
  Chatter.read U requests_get id (c :: rest) ch
  = Chatter.read U requests_get id [c] ch.
Proof.
  intros Hs. cbn [Chatter.read].
  destruct (Chatter.running ch); [|reflexivity].
  destruct (Chatter.sigint c) eqn:Es; [contradiction| |];
    cbn [Chatter.on_signal];
    destruct (Reader.read U requests_get id (Chatter.slice c) _) as [r p'];
    destruct r as [msg|e]; try reflexivity;
    match goal with
    | |- context [match ?sh with Ok _ => _ | Err _ => _ end] =>
      destruct sh as [prints|e]; [|reflexivity]
    end;
    rewrite (read_stopped U requests_get id rest) by reflexivity;
    reflexivity.
Qed.

End ChatterSpec.

(** ** Lower-casing and trimming, beyond ASCII *)

Module UnicodeFacts.
Import Py PyFacts.

(** A code point that [str.lower()] leaves alone. *)
Definition lower_stable (U : unicode_db) (d : Z) : Prop :=
  d <> 0x3A3 /\ lower_char U d = [d].

(** What the proofs below use of the character database: a lower-case
    mapping yields lower-case characters, maps no printing character to
    white space or to nothing, and stays within the scalar values. *)
Record unicode_sane (U : unicode_db) : Prop := {
  sane_stable : forall c, ~ is_ascii c -> c <> 0x3A3 ->
    Forall (lower_stable U) (to_lower_full U c);
  sane_sigma : lower_stable U 0x3C2 /\ lower_stable U 0x3C3;
  sane_nonspace : forall c, ~ is_ascii c -> c <> 0x3A3 -> isspace c = false ->
    to_lower_full U c <> [] /\
    Forall (fun d => isspace d = false) (to_lower_full U c);
  sane_scalar : forall c, ~ is_ascii c -> c <> 0x3A3 -> is_scalar c = true ->
    Forall (fun d => is_scalar d = true) (to_lower_full U c)
}.

Lemma is_ascii_dec (c : Z) : {is_ascii c} + {~ is_ascii c}.
Proof.
  unfold is_ascii. destruct (Z_le_dec 0 c); destruct (Z_lt_dec c 128);
    (left; lia) || (right; lia).
Qed.

Lemma lower_char_ascii (U : unicode_db) (c : Z) :
  is_ascii c -> lower_char U c = [ascii_lower c].
Proof.
  unfold is_ascii, lower_char. intros H.
  replace ((0 <=? c) && (c <? 128)) with true; [reflexivity|].
  symmetry. apply andb_true_iff. split; [apply Z.leb_le | apply Z.ltb_lt]; lia.
Qed.

Lemma lower_char_table (U : unicode_db) (c : Z) :
  ~ is_ascii c -> lower_char U c = to_lower_full U c.
Proof.
  unfold is_ascii, lower_char. intros H.
  replace ((0 <=? c) && (c <? 128)) with false; [reflexivity|].
  symmetry. apply andb_false_iff.
  destruct (Z_le_dec 0 c); [right; apply Z.ltb_ge | left; apply Z.leb_gt]; lia.
Qed.

Lemma ascii_lower_cases (c : Z) :
  (0x41 <= c <= 0x5A /\ ascii_lower c = c + 32) \/
  (~ 0x41 <= c <= 0x5A /\ ascii_lower c = c).
Proof.
  unfold ascii_lower. destruct ((65 <=? c) && (c <=? 90)) eqn:E.
  - left. bool_hyps. lia.
  - right. split; [|reflexivity]. apply andb_false_iff in E.
    destruct E; bool_hyps; lia.
Qed.

Lemma ascii_lower_is_ascii (c : Z) : is_ascii c -> is_ascii (ascii_lower c).
Proof. unfold is_ascii. destruct (ascii_lower_cases c) as [[? ->]|[? ->]]; lia. Qed.

Lemma ascii_lower_idem (c : Z) : ascii_lower (ascii_lower c) = ascii_lower c.
Proof.
  destruct (ascii_lower_cases c) as [[H ->]|[H ->]].
  - destruct (ascii_lower_cases (c + 32)) as [[? ?]|[? ?]]; lia.
  - destruct (ascii_lower_cases c) as [[? ?]|[? ?]]; lia.
Qed.

(** [t] does not begin with white space. *)
Definition starts_clean (t : str) : Prop :=
  match t with
  | [] => True
  | c :: _ => isspace c = false
  end.

(** [t] neither begins nor ends with white space. *)
Definition trimmed (t : str) : Prop := starts_clean t /\ starts_clean (rev t).

Lemma lstrip_clean (t : str) : starts_clean (lstrip t).
Proof.
  induction t as [|c t IH]; [exact I|].
  cbn [lstrip]. destruct (isspace c) eqn:E; [exact IH | exact E].
Qed.


Lemma lstrip_suffix (s : str) : exists pre, s = pre ++ lstrip s.
Proof.
  induction s as [|c s [pre IH]]; [exists []; reflexivity|].
  cbn [lstrip]. destruct (isspace c).
  - exists (c :: pre). cbn [app]. f_equal. exact IH.
  - exists []. reflexivity.
Qed.


Lemma strip_trimmed (s : str) : trimmed (strip s).
Proof.
  unfold strip, rstrip. set (u := lstrip s).
  destruct (lstrip_suffix (rev u)) as [pre Hpre].
  set (w := lstrip (rev u)) in *. split.
  - assert (Hu : u = rev w ++ rev pre).
    { rewrite <- rev_app_distr, <- Hpre, rev_involutive. reflexivity. }
    pose proof (lstrip_clean s) as Hc. fold u in Hc. rewrite Hu in Hc.
    destruct (rev w); [exact I | exact Hc].
  - rewrite rev_involutive. apply lstrip_clean.
Qed.

Lemma strip_sublist (P : Z -> Prop) (s : str) : Forall P s -> Forall P (strip s).
Proof.
  intros H. unfold strip, rstrip.
  assert (L : forall t, Forall P t -> Forall P (lstrip t)).
  { intros t Ht. destruct (lstrip_suffix t) as [pre Hp].
    rewrite Hp in Ht. apply Forall_app in Ht. apply Ht. }
  apply Forall_rev, L, Forall_rev, L, H.
Qed.

Ltac nonspace :=
  unfold isspace;
  repeat match goal with
  | |- context [(?a <=? ?b) && (?c <=? ?d)] =>
    replace ((a <=? b) && (c <=? d)) with false
      by (symmetry; apply andb_false_iff;
          destruct (Z_le_gt_dec a b); [right | left]; apply Z.leb_gt; lia)
  | |- context [?a =? ?b] =>
    replace (a =? b) with false by (symmetry; apply Z.eqb_neq; lia)
  end; reflexivity.

Lemma ascii_lower_nonspace (c : Z) :
  isspace c = false -> isspace (ascii_lower c) = false.
Proof.
  intros H. destruct (ascii_lower_cases c) as [[Hr ->]|[Hr ->]]; [|exact H].
  nonspace.
Qed.

Section Sane.
Variable U : unicode_db.
Hypothesis HU : unicode_sane U.

(** The characters one input character lowers to. *)
Definition piece (before_rev : str) (c : Z) (rest : str) : str :=
  if c =? 0x3A3 then [handle_capital_sigma U before_rev rest]
  else lower_char U c.

Lemma do_lower_cons (before_rev : str) (c : Z) (rest : str) :
  do_lower U before_rev (c :: rest)
  = piece before_rev c rest ++ do_lower U (c :: before_rev) rest.
Proof. reflexivity. Qed.

Lemma sigma_cases (before_rev rest : str) :
  handle_capital_sigma U before_rev rest = 0x3C2 \/
  handle_capital_sigma U before_rev rest = 0x3C3.
Proof.
  unfold handle_capital_sigma.
  match goal with |- context [if ?b then _ else _] => destruct b end; auto.
Qed.

Lemma piece_stable (before_rev : str) (c : Z) (rest : str) :
  Forall (lower_stable U) (piece before_rev c rest).
Proof.
  unfold piece. destruct (c =? 931) eqn:E; bool_hyps.
  - destruct (sane_sigma U HU) as [H2 H3].
    destruct (sigma_cases before_rev rest) as [-> | ->]; repeat constructor;
      (apply H2 || apply H3).
  - destruct (is_ascii_dec c) as [Ha | Hn].
    + rewrite lower_char_ascii by assumption. constructor; [|constructor].
      pose proof (ascii_lower_is_ascii c Ha) as Hl. split.
      * unfold is_ascii in Hl. lia.
      * rewrite lower_char_ascii by assumption. rewrite ascii_lower_idem.
        reflexivity.
    + rewrite lower_char_table by assumption.
      apply (sane_stable U HU); assumption.
Qed.

Lemma do_lower_stable (before_rev s : str) :
  Forall (lower_stable U) (do_lower U before_rev s).
Proof.
  revert before_rev. induction s as [|c s IH]; intros before_rev.
  - constructor.
  - rewrite do_lower_cons. apply Forall_app. split.
    + apply piece_stable.
    + apply IH.
Qed.



Lemma piece_nonspace (before_rev : str) (c : Z) (rest : str) :
  isspace c = false ->
  piece before_rev c rest <> [] /\
  Forall (fun d => isspace d = false) (piece before_rev c rest).
Proof.
  intros Hc. unfold piece. destruct (c =? 931) eqn:E; bool_hyps.
  - split; [discriminate|].
    destruct (sigma_cases before_rev rest) as [-> | ->];
      repeat constructor.
  - destruct (is_ascii_dec c) as [Ha | Hn].
    + rewrite lower_char_ascii by assumption. split; [discriminate|].
      constructor; [|constructor]. apply ascii_lower_nonspace, Hc.
    + rewrite lower_char_table by assumption.
      apply (sane_nonspace U HU); assumption.
Qed.





Lemma lower_nonempty (t : str) : starts_clean t -> t <> [] -> lower U t <> [].
Proof.
  destruct t as [|c t]; [contradiction|]. cbn [starts_clean]. intros Hc _.
  unfold lower. rewrite do_lower_cons.
  destruct (piece_nonspace [] c t Hc) as [Hne _].
  destruct (piece [] c t); [contradiction | discriminate].
Qed.

Lemma piece_scalar (before_rev : str) (c : Z) (rest : str) :
  is_scalar c = true ->
  Forall (fun d => is_scalar d = true) (piece before_rev c rest).
Proof.
  intros Hc. unfold piece. destruct (c =? 931) eqn:E; bool_hyps.
  - destruct (sigma_cases before_rev rest) as [-> | ->]; repeat constructor.
  - destruct (is_ascii_dec c) as [Ha | Hn].
    + rewrite lower_char_ascii by assumption. constructor; [|constructor].
      apply is_scalar_spec. pose proof (ascii_lower_is_ascii c Ha) as Hl.
      unfold is_ascii in Hl. lia.
    + rewrite lower_char_table by assumption.
      apply (sane_scalar U HU); assumption.
Qed.

Lemma lower_scalar (s : str) :
  Forall (fun d => is_scalar d = true) s ->
  Forall (fun d => is_scalar d = true) (lower U s).
Proof.
  unfold lower. generalize (@nil Z) as before_rev.
  induction s as [|c s IH]; intros before_rev H; [constructor|].
  inversion H; subst. rewrite do_lower_cons. apply Forall_app. split.
  - apply piece_scalar. assumption.
  - apply IH. assumption.
Qed.

End Sane.

End UnicodeFacts.

(** ** The write loop *)

Module WriterSpec.
Import Py Json Envelope Obj PyFacts JsonFacts EnvelopeFacts UnicodeFacts.

Lemma plain_db_sane : unicode_sane Sample.plain_db.
Proof.
  split.
  - intros c Hn H3. cbn. apply Z.eqb_neq in H3. rewrite H3.
    constructor; [|constructor]. split; [apply Z.eqb_neq, H3|].
    rewrite lower_char_table by assumption. cbn. rewrite H3. reflexivity.
  - split; split; (discriminate || reflexivity).
  - intros c Hn H3 Hs. cbn. apply Z.eqb_neq in H3. rewrite H3.
    split; [discriminate|]. constructor; [exact Hs | constructor].
  - intros c Hn H3 Hs. cbn. apply Z.eqb_neq in H3. rewrite H3.
    constructor; [exact Hs | constructor].
Qed.

(** The events one console line adds to the stream: none when the line is
    blank, else the envelope of the trimmed, lower-cased line. *)
Definition published (U : unicode_db) (id line : str) : list bytes :=
  match lower U (strip line) with
  | [] => []
  | (_ :: _) as message => [Message_json {| sender := id; message := message |}]
  end.


Section Normalization.
Variable U : unicode_db.
Hypothesis HU : unicode_sane U.
Variable id : str.
Hypothesis Hid : scalar_str id.

Lemma normalized_scalar (line : str) :
  scalar_str line -> scalar_str (lower U (strip line)).
Proof.
  intros H. apply (lower_scalar U HU). apply strip_sublist. exact H.
Qed.

Lemma write_pass_published (line : str) (stream : list bytes) :
  scalar_str line ->
  Chatter.write_pass U id line stream = Ok (stream ++ published U id line).
Proof.
  intros Hl. unfold Chatter.write_pass, published.
  pose proof (normalized_scalar line Hl) as Hs.
  destruct (lower U (strip line)) as [|c m] eqn:E.
  - rewrite app_nil_r. reflexivity.
  - apply write_event; assumption.
Qed.




End Normalization.



(** The sample lines above put exactly one event on the stream. *)
Example write_hello_world :
  Chatter.write Sample.plain_db (lit "tim")
    [(lit "  Hello World ", false); (lit "   ", true)] true []
  = (Chatter.Finished, [lit_q "{'sender': 'tim', 'message': 'hello world'}"]).
Proof. reflexivity. Qed.

End WriterSpec.

(** * Further properties of the code *)

(** ** The joke command and the provider *)

Module JokeSpec.
Import Py Json Envelope Obj PyFacts JsonFacts EnvelopeFacts ReaderSpec.

(** X2: [_tell_joke] returns a joke exactly when the provider answers with
    text that parses to a JSON list whose first element is an object with
    string [setup] and [punchline]; the joke is then the setup, a newline
    and the punchline.  In every other case it raises. *)
Theorem tell_joke_returns_iff (requests_get : str -> result str) (joke : str) :
  Reader._tell_joke requests_get = Ok joke <->
  exists text d others setup punchline,
    requests_get Reader.joke_url = Ok text /\
    loads text = Ok (JArray (JObject d :: others)) /\
    dict_get (lit "setup") d = Some (JString setup) /\
    dict_get (lit "punchline") d = Some (JString punchline) /\
    joke = setup ++ [0x0A] ++ punchline.
Proof.
  unfold Reader._tell_joke. split.
  - intros H.
    destruct (requests_get Reader.joke_url) as [text|] eqn:Er; [|discriminate].
    cbn [bind] in H.
    destruct (loads text) as [parsed|] eqn:El; [|discriminate].
    cbn [bind] in H.
    destruct parsed as [| | | |s|items|d0]; try discriminate.
    { destruct s; discriminate. }
    destruct items as [|tt others]; [discriminate|]. cbn [getitem0 bind] in H.
    destruct tt as [| | | | | |d]; try discriminate. cbn [getitem] in H.
    destruct (dict_get (lit "setup") d) as [setup|] eqn:Es; [|discriminate].
    cbn [bind] in H. destruct setup as [| | | |setup| |]; try discriminate.
    cbn [add_str bind] in H.
    destruct (dict_get (lit "punchline") d) as [punchline|] eqn:Ep;
      [|discriminate].
    cbn [bind] in H.
    destruct punchline as [| | | |punchline| |]; try discriminate.
    cbn [str_add] in H. injection H as <-.
    exists text, d, others, setup, punchline.
    rewrite <- app_assoc. repeat split; reflexivity || assumption.
  - intros (text & d & others & setup & punchline & Hr & Hl & Hs & Hp & ->).
    rewrite Hr. cbn [bind]. rewrite Hl.
    cbn [bind getitem0 getitem]. rewrite Hs. cbn [bind add_str].
    rewrite Hp. cbn [bind str_add]. rewrite <- app_assoc. reflexivity.
Qed.

(** X1: a [joke] batch from another sender is answered with the first joke
    of the provider's list, setup and punchline joined by a newline, under
    the incoming sender's name; the joke text is not lower-cased. *)
Theorem joke_is_answered (U : unicode_db) (requests_get : str -> result str)
    (id : str) (buff : list bytes) (jsonify : value) (incoming : Message)
    (text : str) (d : dict) (others : list value) (setup punchline : str) :
  Reader.decode_batch U buff = Ok (jsonify, incoming) ->
  sender incoming <> id ->
  message incoming = lit "joke" ->
  requests_get Reader.joke_url = Ok text ->
  loads text = Ok (JArray (JObject d :: others)) ->
  dict_get (lit "setup") d = Some (JString setup) ->
  dict_get (lit "punchline") d = Some (JString punchline) ->
  Reader._process_message U requests_get id buff
  = Ok (Some (Message_dict {| sender := sender incoming;
                              message := setup ++ [0x0A] ++ punchline |})).
Proof.
  intros Hd Hs Hm Hr Hl Hse Hp.
  rewrite (process_decoded U requests_get id _ _ _ Hd).
  apply str_eqb_neq in Hs. rewrite Hs, Hm.
  change (str_eqb (lit "joke") (lit "greet")) with false.
  change (str_eqb (lit "joke") (lit "joke")) with true. cbv iota.
  unfold Reader._tell_joke. rewrite Hr. cbn [bind]. rewrite Hl.
  cbn [bind getitem0 getitem]. rewrite Hse. cbn [bind add_str].
  rewrite Hp. cbn [bind str_add]. rewrite <- app_assoc. reflexivity.
Qed.

Lemma joke_is_answered_witness :
  Reader._process_message Sample.plain_db Sample.provider_up (lit "tim")
    [lit_q "{'sender': 'alex', 'message': 'JOKE'}"]
  = Ok (Some (Message_dict {| sender := lit "alex";
                              message := lit "Why?" ++ [0x0A] ++ lit "Because." |})).
Proof.
  apply (joke_is_answered Sample.plain_db Sample.provider_up (lit "tim")
           [lit_q "{'sender': 'alex', 'message': 'JOKE'}"]
           (envelope (lit "alex") (lit "joke"))
           {| sender := lit "alex"; message := lit "joke" |}
           (lit_q "[{'setup': 'Why?', 'punchline': 'Because.'}]")
           [(lit "setup", JString (lit "Why?"));
            (lit "punchline", JString (lit "Because."))]
           [] (lit "Why?") (lit "Because."));
    (reflexivity || discriminate).
Defined.

(** X3: the joke provider is consulted only to resolve a [joke] message
    from another sender: for every other batch, malformed ones included,
    the outcome is the same whatever the provider would answer. *)
Theorem provider_only_for_joke (U : unicode_db)
    (requests_get requests_get' : str -> result str) (id : str)
    (buff : list bytes) :
  (forall jsonify incoming,
     Reader.decode_batch U buff = Ok (jsonify, incoming) ->
     sender incoming <> id -> message incoming <> lit "joke") ->
  Reader._process_message U requests_get id buff
  = Reader._process_message U requests_get' id buff.
Proof.
  intros H.
  destruct (Reader.decode_batch U buff) as [[jsonify incoming]|e] eqn:Hd.
  - rewrite (process_decoded U requests_get id _ _ _ Hd).
    rewrite (process_decoded U requests_get' id _ _ _ Hd).
    destruct (str_eqb (sender incoming) id) eqn:Eid; [reflexivity|].
    destruct (str_eqb (message incoming) (lit "greet")); [reflexivity|].
    apply str_eqb_neq in Eid.
    specialize (H jsonify incoming eq_refl Eid).
    apply str_eqb_neq in H. rewrite H. reflexivity.
  - unfold Reader._process_message. rewrite Hd. reflexivity.
Qed.

Lemma provider_only_for_joke_witness :
  Reader._process_message Sample.plain_db Sample.provider_up (lit "tim")
    [lit_q "{'sender': 'alex', 'message': 'a joke'}"]
  = Reader._process_message Sample.plain_db Sample.provider_down (lit "tim")
      [lit_q "{'sender': 'alex', 'message': 'a joke'}"].
Proof.
  apply (provider_only_for_joke Sample.plain_db Sample.provider_up
           Sample.provider_down (lit "tim")
           [lit_q "{'sender': 'alex', 'message': 'a joke'}"]).
  intros jsonify incoming Hd _.
  change (Reader.decode_batch Sample.plain_db
            [lit_q "{'sender': 'alex', 'message': 'a joke'}"])
    with (Ok (envelope (lit "alex") (lit "a joke"),
              {| sender := lit "alex"; message := lit "a joke" |})) in Hd.
  injection Hd as _ <-. discriminate.
Defined.

(** X4: a batch whose text is valid JSON but not an object (a list, a
    string, a number, [true], [null]) raises [TypeError] when the sender is
    looked up; it is neither answered nor reported as a decode error. *)
Theorem non_object_raises_TypeError (U : unicode_db)
    (requests_get : str -> result str) (id : str) (buff : list bytes)
    (decoded : list str) (v : value) :
  mapM utf8_decode buff = Ok decoded ->
  loads (lower U (strip (List.concat decoded))) = Ok v ->
  (forall d, v <> JObject d) ->
  Reader._process_message U requests_get id buff = Err TypeError.
Proof.
  intros Hu Hl Hv. unfold Reader._process_message, Reader.decode_batch.
  rewrite Hu. cbn [bind]. rewrite Hl. cbn [bind].
  destruct v; try reflexivity. exfalso. apply (Hv d). reflexivity.
Qed.

Lemma non_object_raises_TypeError_witness :
  Reader._process_message Sample.plain_db Sample.provider_up (lit "tim")
    [lit_q "['alex', 'hi']"] = Err TypeError.
Proof.
  apply (non_object_raises_TypeError Sample.plain_db Sample.provider_up
           (lit "tim") [lit_q "['alex', 'hi']"] [lit_q "['alex', 'hi']"]
           (JArray [JString (lit "alex"); JString (lit "hi")])).
  - reflexivity.
  - reflexivity.
  - discriminate.
Defined.

End JokeSpec.

(** ** Fragments, white space and letter case of a batch *)

Module BatchSpec.
Import Py Json Envelope Obj PyFacts JsonFacts EnvelopeFacts ReaderSpec.
Import UnicodeFacts.

Lemma process_by_decode (U : unicode_db) (requests_get : str -> result str)
    (id : str) (buff buff' : list bytes) :
  Reader.decode_batch U buff = Reader.decode_batch U buff' ->
  Reader._process_message U requests_get id buff
  = Reader._process_message U requests_get id buff'.
Proof. intros H. unfold Reader._process_message. rewrite H. reflexivity. Qed.

Lemma decode_batch_text (U : unicode_db) (buff : list bytes)
    (decoded : list str) :
  mapM utf8_decode buff = Ok decoded ->
  Reader.decode_batch U buff =
  (jsonify <- loads (lower U (strip (List.concat decoded))) ;;
   s <- getitem jsonify (lit "sender") ;;
   m <- getitem jsonify (lit "message") ;;
   incoming <- Message_new s m ;;
   Ok (jsonify, incoming)).
Proof. intros H. unfold Reader.decode_batch. rewrite H. reflexivity. Qed.

(** X5: how a batch is cut into fragments does not matter, as long as
    every fragment is valid UTF-8 on its own: two such batches with the
    same concatenated bytes get the same outcome. *)
Theorem fragmentation_is_irrelevant (U : unicode_db)
    (requests_get : str -> result str) (id : str) (buff buff' : list bytes)
    (decoded decoded' : list str) :
  mapM utf8_decode buff = Ok decoded ->
  mapM utf8_decode buff' = Ok decoded' ->
  List.concat buff = List.concat buff' ->
  Reader._process_message U requests_get id buff
  = Reader._process_message U requests_get id buff'.
Proof.
  intros H H' Hc. apply process_by_decode.
  rewrite (decode_batch_text U _ _ H), (decode_batch_text U _ _ H').
  pose proof (utf8_decode_concat _ _ H) as E.
  pose proof (utf8_decode_concat _ _ H') as E'.
  rewrite Hc in E. rewrite E in E'. injection E' as ->. reflexivity.
Qed.

Lemma fragmentation_is_irrelevant_witness :
  Reader._process_message Sample.plain_db Sample.provider_up (lit "tim")
    [lit_q "{'sender': 'al"; lit_q "ex', 'message'"; lit_q ": 'greet'}"]
  = Reader._process_message Sample.plain_db Sample.provider_up (lit "tim")
      [lit_q "{'sender': 'alex', 'message': 'greet'}"].
Proof.
  apply (fragmentation_is_irrelevant Sample.plain_db Sample.provider_up
           (lit "tim")
           [lit_q "{'sender': 'al"; lit_q "ex', 'message'"; lit_q ": 'greet'}"]
           [lit_q "{'sender': 'alex', 'message': 'greet'}"]
           [lit_q "{'sender': 'al"; lit_q "ex', 'message'"; lit_q ": 'greet'}"]
           [lit_q "{'sender': 'alex', 'message': 'greet'}"]);
    reflexivity.
Defined.

(** A UTF-8 lead byte: the first byte of a character of two to four bytes. *)
Definition is_lead (b : Z) : Prop := 0xC2 <= b <= 0xF4.

Lemma utf8_next_keeps_last (a : bytes) (b0 c : Z) (rest : bytes) :
  is_lead b0 ->
  utf8_next (a ++ [b0]) = Ok (c, rest) ->
  exists a', rest = a' ++ [b0] /\ (List.length a' < List.length a)%nat.
Proof.
  unfold is_lead. intros Hb.
  assert (Hc : is_cont b0 = false).
  { unfold is_cont. apply andb_false_iff. right. apply Z.leb_gt. lia. }
  assert (Ha : (0 <=? b0) && (b0 <? 128) = false).
  { apply andb_false_iff. right. apply Z.ltb_ge. lia. }
  unfold utf8_next.
  destruct a as [|x0 [|x1 [|x2 [|x3 a]]]]; cbn [app];
    rewrite ?Hc, ?Ha, ?andb_false_r; cbn [andb];
    repeat match goal with
    | |- context [if ?x then _ else _] => destruct x
    end; intros H; inversion H; subst;
    first
      [ exists []; split; [reflexivity | cbn [List.length]; lia]
      | exists [x1]; split; [reflexivity | cbn [List.length]; lia]
      | exists [x2]; split; [reflexivity | cbn [List.length]; lia]
      | exists [x1; x2]; split; [reflexivity | cbn [List.length]; lia]
      | exists a; split; [reflexivity | cbn [List.length]; lia]
      | exists (x3 :: a); split; [reflexivity | cbn [List.length]; lia]
      | exists (x2 :: x3 :: a); split; [reflexivity | cbn [List.length]; lia]
      | exists (x1 :: x2 :: x3 :: a); split;
        [reflexivity | cbn [List.length]; lia] ].
Qed.

Lemma utf8_decode_fuel_cut (fuel : nat) (a : bytes) (b0 : Z) :
  is_lead b0 ->
  utf8_decode_fuel fuel (a ++ [b0]) = Err UnicodeDecodeError.
Proof.
  intros Hb. remember (List.length a) as n eqn:En.
  revert a En fuel. induction n as [n IH] using lt_wf_ind.
  intros a En fuel.
  destruct (a ++ [b0]) as [|y ys] eqn:E.
  { destruct a; discriminate. }
  destruct fuel as [|fuel]; [reflexivity|].
  cbn [utf8_decode_fuel]. rewrite <- E.
  destruct (utf8_next (a ++ [b0])) as [[c rest]|e] eqn:Hn.
  - destruct (utf8_next_keeps_last a b0 c rest Hb Hn) as (a' & -> & Hlt).
    cbn [bind]. rewrite (IH (List.length a')) by (subst; lia || reflexivity).
    reflexivity.
  - cbn [bind]. rewrite (utf8_next_error _ _ Hn). reflexivity.
Qed.

Lemma mapM_utf8_decode_fails (buff : list bytes) (x : bytes) (e : exn) :
  In x buff -> utf8_decode x = Err e ->
  mapM utf8_decode buff = Err UnicodeDecodeError.
Proof.
  intros Hin Hx. induction buff as [|y buff IH]; [contradiction|].
  cbn [mapM]. destruct (utf8_decode y) as [t|e'] eqn:Ey.
  - cbn [bind]. destruct Hin as [-> | Hin]; [congruence|].
    rewrite (IH Hin). reflexivity.
  - cbn [bind]. rewrite (utf8_decode_fuel_error _ _ _ Ey). reflexivity.
Qed.

(** X6: fragments are decoded one by one, so a batch with a fragment that
    stops in the middle of a multi-byte character (ends with a UTF-8 lead
    byte) raises [UnicodeDecodeError], whatever the other fragments are. *)
Theorem cut_character_is_rejected (U : unicode_db)
    (requests_get : str -> result str) (id : str) (buff : list bytes)
    (a : bytes) (b0 : Z) :
  In (a ++ [b0]) buff ->
  is_lead b0 ->
  Reader._process_message U requests_get id buff = Err UnicodeDecodeError.
Proof.
  intros Hin Hb. unfold Reader._process_message, Reader.decode_batch.
  rewrite (mapM_utf8_decode_fails buff (a ++ [b0]) UnicodeDecodeError Hin).
  - reflexivity.
  - apply utf8_decode_fuel_cut. exact Hb.
Qed.

Lemma cut_character_is_rejected_witness :
  Reader._process_message Sample.plain_db Sample.provider_up (lit "tim")
    [lit_q "{'sender': 'alex', 'message': 'caf" ++ [0xC3];
     [0xA9] ++ lit_q "'}"]
  = Err UnicodeDecodeError.
Proof.
  apply (cut_character_is_rejected Sample.plain_db Sample.provider_up
           (lit "tim")
           [lit_q "{'sender': 'alex', 'message': 'caf" ++ [0xC3];
            [0xA9] ++ lit_q "'}"]
           (lit_q "{'sender': 'alex', 'message': 'caf") 0xC3).
  - left. reflexivity.
  - unfold is_lead. lia.
Defined.

(** The same bytes in one fragment are a valid envelope. *)
Example uncut_character_is_accepted :
  Reader._process_message Sample.plain_db Sample.provider_up (lit "tim")
    [lit_q "{'sender': 'alex', 'message': 'caf" ++ [0xC3; 0xA9] ++ lit_q "'}"]
  = Ok (Some (Message_dict {| sender := lit "alex";
                              message := lit "caf" ++ [0xE9] |})).
Proof. vm_compute. reflexivity. Qed.

Lemma isspace_ascii_lower (c : Z) : isspace (ascii_lower c) = isspace c.
Proof.
  destruct (ascii_lower_cases c) as [[Hr ->]|[Hr ->]]; [|reflexivity].
  transitivity false; [|symmetry]; nonspace.
Qed.

Lemma lstrip_lower (s : str) :
  lstrip (List.map ascii_lower s) = List.map ascii_lower (lstrip s).
Proof.
  induction s as [|c s IH]; [reflexivity|].
  cbn [List.map lstrip]. rewrite isspace_ascii_lower.
  destruct (isspace c); [exact IH | reflexivity].
Qed.

Lemma strip_lower (s : str) :
  strip (List.map ascii_lower s) = List.map ascii_lower (strip s).
Proof.
  unfold strip, rstrip.
  rewrite lstrip_lower, <- map_rev, lstrip_lower, map_rev. reflexivity.
Qed.

(** X7: on ASCII text the processor is blind to letter case: two batches
    whose (ASCII) texts differ only in the case of letters get the same
    outcome, so commands, keys and the sender are matched without regard
    to case. *)
Theorem ascii_case_is_irrelevant (U : unicode_db)
    (requests_get : str -> result str) (id : str) (buff buff' : list bytes)
    (decoded decoded' : list str) :
  mapM utf8_decode buff = Ok decoded ->
  mapM utf8_decode buff' = Ok decoded' ->
  Forall is_ascii (List.concat decoded) ->
  Forall is_ascii (List.concat decoded') ->
  List.map ascii_lower (List.concat decoded)
  = List.map ascii_lower (List.concat decoded') ->
  Reader._process_message U requests_get id buff
  = Reader._process_message U requests_get id buff'.
Proof.
  intros H H' Ha Ha' E. apply process_by_decode.
  rewrite (decode_batch_text U _ _ H), (decode_batch_text U _ _ H').
  rewrite !lower_ascii by (apply strip_sublist; assumption).
  rewrite <- !strip_lower, E. reflexivity.
Qed.

Lemma ascii_case_is_irrelevant_witness :
  Reader._process_message Sample.plain_db Sample.provider_up (lit "tim")
    [lit_q "{'Sender': 'ALEX', 'MESSAGE': 'Greet'}"]
  = Reader._process_message Sample.plain_db Sample.provider_up (lit "tim")
      [lit_q "{'sender': 'alex', 'message': 'greet'}"].
Proof.
  apply (ascii_case_is_irrelevant Sample.plain_db Sample.provider_up
           (lit "tim")
           [lit_q "{'Sender': 'ALEX', 'MESSAGE': 'Greet'}"]
           [lit_q "{'sender': 'alex', 'message': 'greet'}"]
           [lit_q "{'Sender': 'ALEX', 'MESSAGE': 'Greet'}"]
           [lit_q "{'sender': 'alex', 'message': 'greet'}"]).
  - reflexivity.
  - reflexivity.
  - apply Forall_forall. intros c Hc. cbn in Hc.
    repeat (destruct Hc as [<- | Hc]; [unfold is_ascii; lia|]). contradiction.
  - apply Forall_forall. intros c Hc. cbn in Hc.
    repeat (destruct Hc as [<- | Hc]; [unfold is_ascii; lia|]). contradiction.
  - reflexivity.
Defined.

End BatchSpec.

(** ** One pass of [MyReader.read] and of the read loop *)

Module LoopSpec.
Import Py Json Envelope Obj PyFacts JsonFacts EnvelopeFacts ReaderSpec.

(** X8: a slice the broker delivered is released exactly once by
    [MyReader.read], empty or not and even when processing it raises; when
    the broker read itself raises nothing is released.  The reader is never
    taken offline, and an empty slice gives [None] without being processed. *)
Theorem read_releases_slice (U : unicode_db)
    (requests_get : str -> result str) (id : str)
    (slice : result (list bytes)) (p : Reader.p_reader) :
  snd (Reader.read U requests_get id slice p)
  = match slice with
    | Ok _ => Reader.release_segment p
    | Err _ => p
    end /\
  Reader.offline (snd (Reader.read U requests_get id slice p))
  = Reader.offline p /\
  (slice = Ok [] -> fst (Reader.read U requests_get id slice p) = Ok None).
Proof.
  assert (H : snd (Reader.read U requests_get id slice p)
              = match slice with
                | Ok _ => Reader.release_segment p
                | Err _ => p
                end).
  { unfold Reader.read. destruct slice as [buff|e]; [|reflexivity].
    destruct (0 <? List.length buff)%nat; [|reflexivity].
    destruct (Reader._process_message U requests_get id buff); reflexivity. }
  split; [exact H|]. split.
  - rewrite H. destruct slice; reflexivity.
  - intros ->. reflexivity.
Qed.

(** What [MyReader.read] returns when processing does not raise. *)
Lemma read_returns (U : unicode_db) (requests_get : str -> result str)
    (id : str) (buff : list bytes) (p : Reader.p_reader) (r : option dict) :
  Reader._process_message U requests_get id buff = Ok r ->
  Reader.read U requests_get id (Ok buff) p
  = (Ok (if (0 <? List.length buff)%nat then r else None),
     Reader.release_segment p).
Proof.
  intros H. unfold Reader.read.
  destruct (0 <? List.length buff)%nat; [rewrite H|]; reflexivity.
Qed.


(** The loop state after a pass that read and released one slice. *)
Definition after_read (ch : Chatter.MyChatter) : Chatter.MyChatter :=
  Chatter.set_reader ch (Reader.release_segment (Chatter.reader ch)).

(** X11: a batch this client sent itself is not displayed: the pass prints
    nothing and the loop goes on with the next batch. *)
Theorem own_message_is_not_displayed (U : unicode_db)
    (requests_get : str -> result str) (id : str) (buff : list bytes)
    (jsonify : value) (incoming : Message) (rest : list Chatter.cycle)
    (ch : Chatter.MyChatter) :
  Chatter.running ch = true ->
  Reader.decode_batch U buff = Ok (jsonify, incoming) ->
  sender incoming = id ->
  Chatter.read U requests_get id
    ({| Chatter.slice := Ok buff; Chatter.sigint := Chatter.NoSignal |} :: rest)
    ch
  = let '(evs, o, ch') := Chatter.read U requests_get id rest (after_read ch) in
    (Chatter.EvRead :: evs, o, ch').
Proof.
  intros Hr Hd Hs. cbn [Chatter.read Chatter.slice Chatter.sigint].
  rewrite Hr. cbn [Chatter.on_signal].
  assert (Hp : Reader._process_message U requests_get id buff = Ok None).
  { rewrite (process_decoded U requests_get id _ _ _ Hd).
    rewrite Hs, str_eqb_refl. reflexivity. }
  rewrite (read_returns U requests_get id buff _ None Hp).
  destruct (0 <? List.length buff)%nat; cbn [app]; fold (after_read ch);
    destruct (Chatter.read U requests_get id rest (after_read ch))
      as [[evs o] ch']; reflexivity.
Qed.

Lemma own_message_is_not_displayed_witness :
  Chatter.read Sample.plain_db Sample.provider_up (lit "tim")
    ({| Chatter.slice := Ok [lit_q "{'sender': 'Tim', 'message': 'hello'}"];
        Chatter.sigint := Chatter.NoSignal |} :: [])
    ChatterSpec.fresh
  = let '(evs, o, ch') :=
      Chatter.read Sample.plain_db Sample.provider_up (lit "tim") []
        (after_read ChatterSpec.fresh) in
    (Chatter.EvRead :: evs, o, ch').
Proof.
  apply (own_message_is_not_displayed Sample.plain_db Sample.provider_up
           (lit "tim") [lit_q "{'sender': 'Tim', 'message': 'hello'}"]
           (envelope (lit "tim") (lit "hello"))
           {| sender := lit "tim"; message := lit "hello" |} []
           ChatterSpec.fresh);
    reflexivity.
Defined.



End LoopSpec.

(** ** From one client's console to another client's reader *)

Module EndToEnd.
Import Py Json Envelope Obj PyFacts JsonFacts EnvelopeFacts ReaderSpec.
Import UnicodeFacts CodecSpec WriterSpec.

(** X13: the codec proper is verbatim: what [_format_message] writes,
    [json.loads] parses back to exactly the sender and the message given,
    upper-case letters, quotes, control characters and non-ASCII characters
    included (strings of Unicode scalar values). *)
Theorem format_then_parse (id m : str) :
  scalar_str id -> scalar_str m ->
  (text <- Writer._format_message id m ;; loads text)
  = Ok (envelope id m).
Proof.
  intros Hi Hm. unfold Writer._format_message. cbn [Message_new bind].
  apply (loads_Message_json {| sender := id; message := m |});
    assumption.
Qed.

Lemma format_then_parse_witness :
  (text <- Writer._format_message (lit "Tim") (lit_q "Say 'Hi'" ++ [0x0A; 0xC9; 0x1F600]) ;;
   loads text)
  = Ok (envelope (lit "Tim") (lit_q "Say 'Hi'" ++ [0x0A; 0xC9; 0x1F600])).
Proof.
  apply (format_then_parse (lit "Tim")
           (lit_q "Say 'Hi'" ++ [0x0A; 0xC9; 0x1F600]));
    apply scalar_str_check; reflexivity.
Defined.

Lemma stable_is_lower_ascii (U : unicode_db) (m : str) :
  Forall (lower_stable U) m -> lower_ascii_str m = m.
Proof.
  unfold lower_ascii_str. induction 1 as [|d m [_ Hd] Hm IH]; [reflexivity|].
  cbn [List.map]. rewrite IH. f_equal.
  destruct (is_ascii_dec d) as [Ha | Hn].
  - rewrite lower_char_ascii in Hd by assumption. injection Hd as ->.
    reflexivity.
  - unfold is_ascii in Hn. destruct (ascii_lower_cases d) as [[? ?]|[? ?]];
      [lia | assumption].
Qed.

(** X14: a line typed at the console of a client whose id has no
    upper-case ASCII letter arrives unchanged at any reader: the event the
    write loop publishes for it decodes to that id and to the line stripped
    and lower-cased. *)
Theorem typed_line_arrives (U : unicode_db) (id line : str)
    (stream : list bytes) :
  unicode_sane U ->
  scalar_str id -> no_ascii_upper id -> scalar_str line ->
  strip line <> [] ->
  exists event,
    Chatter.write_pass U id line stream = Ok (stream ++ [event]) /\
    Reader.decode_batch U [event]
    = Ok (envelope id (lower U (strip line)),
          {| sender := id; message := lower U (strip line) |}).
Proof.
  intros HU Hi Hup Hl Hne.
  pose proof (normalized_scalar U HU line Hl) as Hs.
  assert (Hm : lower U (strip line) <> []).
  { apply (lower_nonempty U HU); [apply strip_trimmed | exact Hne]. }
  exists (Message_json {| sender := id; message := lower U (strip line) |}).
  split.
  - rewrite (write_pass_published U HU id Hi line stream Hl).
    unfold published. destruct (lower U (strip line)); [contradiction|].
    reflexivity.
  - rewrite decode_batch_Message_json by assumption. cbn [sender message].
    rewrite (lower_ascii_str_id id Hup).
    rewrite (stable_is_lower_ascii U (lower U (strip line)))
      by apply (do_lower_stable U HU).
    reflexivity.
Qed.

Lemma typed_line_arrives_witness :
  exists event,
    Chatter.write_pass Sample.plain_db (lit "tim") (lit "  Hello World ") []
    = Ok ([] ++ [event]) /\
    Reader.decode_batch Sample.plain_db [event]
    = Ok (envelope (lit "tim")
            (lower Sample.plain_db (strip (lit "  Hello World "))),
          {| sender := lit "tim";
             message := lower Sample.plain_db (strip (lit "  Hello World ")) |}).
Proof.
  apply (typed_line_arrives Sample.plain_db (lit "tim")
           (lit "  Hello World ") []).
  - exact plain_db_sane.
  - apply scalar_str_check. reflexivity.
  - apply no_ascii_upper_check. reflexivity.
  - apply scalar_str_check. reflexivity.
  - discriminate.
Defined.

(** X15: a client whose id has no upper-case ASCII letter never answers
    or displays what it published itself: its reader returns [None] on the
    event its writer wrote, whatever the message. *)
Theorem own_event_is_suppressed (U : unicode_db)
    (requests_get : str -> result str) (id m : str) :
  scalar_str id -> no_ascii_upper id -> scalar_str m ->
  exists event,
    Writer.write id m [] = Ok [event] /\
    Reader._process_message U requests_get id [event] = Ok None.
Proof.
  intros Hi Hup Hm.
  exists (Message_json {| sender := id; message := m |}). split.
  - apply (write_event id m []); assumption.
  - pose proof (process_decoded U requests_get id _ _ _
                  (decode_batch_Message_json U
                     {| sender := id; message := m |} Hi Hm)) as Hp.
    cbn [sender] in Hp.
    rewrite (lower_ascii_str_id id Hup), str_eqb_refl in Hp. exact Hp.
Qed.

Lemma own_event_is_suppressed_witness :
  exists event,
    Writer.write (lit "tim") (lit "joke") [] = Ok [event] /\
    Reader._process_message Sample.plain_db Sample.provider_up (lit "tim")
      [event] = Ok None.
Proof.
  apply (own_event_is_suppressed Sample.plain_db Sample.provider_up
           (lit "tim") (lit "joke")).
  - apply scalar_str_check. reflexivity.
  - apply no_ascii_upper_check. reflexivity.
  - apply scalar_str_check. reflexivity.
Defined.

Lemma lower_ascii_str_changes (s : str) :
  Exists (fun c => 0x41 <= c <= 0x5A) s -> lower_ascii_str s <> s.
Proof.
  unfold lower_ascii_str. induction 1 as [c s Hc | c s Hs IH]; cbn [List.map].
  - intros E. injection E as E _.
    destruct (ascii_lower_cases c) as [[? ?]|[? ?]]; lia.
  - intros E. injection E as _ E. apply IH. exact E.
Qed.

(** X16: with an upper-case ASCII letter in its id a client does not
    recognise its own events: the sender it decodes from the event its
    writer wrote is the lower-cased id, which differs from the id, so the
    event is not suppressed. *)
Theorem uppercase_id_is_not_suppressed (U : unicode_db)
    (requests_get : str -> result str) (id m : str) :
  scalar_str id -> scalar_str m ->
  Exists (fun c => 0x41 <= c <= 0x5A) id ->
  exists event jsonify incoming,
    Writer.write id m [] = Ok [event] /\
    Reader.decode_batch U [event] = Ok (jsonify, incoming) /\
    sender incoming = lower_ascii_str id /\
    sender incoming <> id /\
    Reader._process_message U requests_get id [event] <> Ok None.
Proof.
  intros Hi Hm Hex.
  pose proof (decode_batch_Message_json U
                {| sender := id; message := m |} Hi Hm) as Hd.
  cbn [sender message] in Hd.
  pose proof (lower_ascii_str_changes id Hex) as Hne.
  exists (Message_json {| sender := id; message := m |}).
  eexists. eexists. split; [apply (write_event id m []); assumption|].
  split; [exact Hd|]. cbn [sender]. split; [reflexivity|].
  split; [exact Hne|].
  pose proof (process_decoded U requests_get id _ _ _ Hd) as Hp.
  cbn [sender message] in Hp.
  apply str_eqb_neq in Hne. rewrite Hne in Hp.
  intros E. pose proof (eq_trans (eq_sym E) Hp) as E'. clear - E'.
  destruct (str_eqb (lower_ascii_str m) (lit "greet")); [discriminate|].
  destruct (str_eqb (lower_ascii_str m) (lit "joke")); [|discriminate].
  destruct (Reader._tell_joke requests_get); discriminate.
Qed.

Lemma uppercase_id_is_not_suppressed_witness :
  exists event jsonify incoming,
    Writer.write (lit "Tim") (lit "hello") [] = Ok [event] /\
    Reader.decode_batch Sample.plain_db [event] = Ok (jsonify, incoming) /\
    sender incoming = lower_ascii_str (lit "Tim") /\
    sender incoming <> lit "Tim" /\
    Reader._process_message Sample.plain_db Sample.provider_up (lit "Tim")
      [event] <> Ok None.
Proof.
  apply (uppercase_id_is_not_suppressed Sample.plain_db Sample.provider_up
           (lit "Tim") (lit "hello")).
  - apply scalar_str_check. reflexivity.
  - apply scalar_str_check. reflexivity.
  - apply Exists_cons_hd. cbv. split; discriminate.
Defined.

End EndToEnd.

(** ** Shutdown and the write loop *)

Module ShutdownSpec.
Import Py Json Envelope Obj PyFacts.

Lemma stop_ends_loop_witness :
  Chatter.read Sample.plain_db Sample.provider_up (lit "tim")
    ({| Chatter.slice := Ok [lit_q "{'sender': 'alex', 'message': 'bye'}"];
        Chatter.sigint := Chatter.AfterReadReturns |}
     :: [ {| Chatter.slice := Ok [lit_q "{'sender': 'alex', 'message': 'late'}"];
             Chatter.sigint := Chatter.NoSignal |} ])
    ChatterSpec.fresh
  = Chatter.read Sample.plain_db Sample.provider_up (lit "tim")
      [ {| Chatter.slice := Ok [lit_q "{'sender': 'alex', 'message': 'bye'}"];
           Chatter.sigint := Chatter.AfterReadReturns |} ]
      ChatterSpec.fresh.
Proof.
  apply (ChatterSpec.stop_ends_loop Sample.plain_db Sample.provider_up
           (lit "tim")).
  discriminate.
Defined.

Lemma write_pass_appends (U : unicode_db) (id line : str)
    (stream stream' : list bytes) :
  Chatter.write_pass U id line stream = Ok stream' ->
  exists one, stream' = stream ++ one /\ (List.length one <= 1)%nat.
Proof.
  unfold Chatter.write_pass. destruct (lower U (strip line)) as [|c m].
  - intros H. injection H as <-. exists []. rewrite app_nil_r. auto.
  - unfold Writer.write.
    destruct (Writer._format_message id (c :: m)) as [msg|]; [|discriminate].
    cbn [bind]. destruct (utf8_encode msg) as [event|]; [|discriminate].
    cbn [bind]. intros H. injection H as <-. exists [event]. auto.
Qed.

(** X17: the write loop only ever appends to the stream, at most one event
    per console line: the events already there are kept, in order,
    whatever is typed and whenever the loop stops. *)
Theorem write_only_appends (U : unicode_db) (id : str)
    (lines : list (str * bool)) (running : bool) (stream : list bytes) :
  exists added,
    snd (Chatter.write U id lines running stream) = stream ++ added /\
    (List.length added <= List.length lines)%nat.
Proof.
  revert running stream.
  induction lines as [|[line stop] rest IH]; intros running stream.
  - exists []. destruct running; cbn; rewrite app_nil_r; auto.
  - destruct running.
    2:{ exists []. cbn. rewrite app_nil_r. split; [reflexivity | lia]. }
    cbn [Chatter.write].
    destruct (Chatter.write_pass U id line stream) as [stream'|e] eqn:E.
    + destruct (write_pass_appends U id line stream stream' E)
        as (one & -> & Hone).
      destruct (IH (negb stop) (stream ++ one)) as (added & -> & Hadded).
      exists (one ++ added). rewrite app_assoc. split; [reflexivity|].
      rewrite length_app. cbn [List.length]. lia.
    + exists []. cbn. rewrite app_nil_r. split; [reflexivity | lia].
Qed.

(** X18: when SIGINT arrives while the write loop waits for a line, that
    line is still handled (and published if it is not blank); then the loop
    ends, and nothing typed afterwards is read. *)
Theorem write_stops_after_signal (U : unicode_db) (id line : str)
    (rest : list (str * bool)) (stream : list bytes) :
  Chatter.write U id ((line, true) :: rest) true stream
  = match Chatter.write_pass U id line stream with
    | Ok stream' => (Chatter.Finished, stream')
    | Err e => (Chatter.Raised e, stream)
    end.
Proof.
  cbn [Chatter.write negb].
  destruct (Chatter.write_pass U id line stream); [|reflexivity].
  destruct rest as [|[? ?] ?]; reflexivity.
Qed.

End ShutdownSpec.
